(** * ComfyUI node pack: grid composer and text-label renderer

    A shallow embedding of [src/image_grid.py] and [src/text_label.py].

    Conventions of the embedding:
    - Python [int] is [Z]; Python [float] is [Q] (exact rationals: every
      float operation of the two files that decides a result is exact on the
      values met here, the remaining ones are flagged where they occur);
    - a Python call that may raise returns [result], and [Raise] carries the
      exception class;
    - a [str] is a [string] whose characters are the code points U+0000 to
      U+00FF;
    - a 4D tensor [B, H, W, C] is its three trailing dimensions and the
      ordered list of its B images, an image being a function of (y, x, c);
    - PyTorch and Pillow calls keep their shape rules and their documented
      failure conditions; what they paint or interpolate is a parameter. *)

From Stdlib Require Import ZArith QArith Qround Lia Lqa List Ascii String Bool.
From Stdlib Require Strings.Byte.
From stdpp Require Import base gmap strings list.

Open Scope Z_scope.

(** ** Python results *)

Inductive PyExc : Type :=
| ValueError | TypeError | RuntimeError | ZeroDivisionError
| AttributeError | OSError.

Inductive result (A : Type) : Type :=
| Ok (a : A)
| Raise (e : PyExc).

Arguments Ok {A} a.
Arguments Raise {A} e.

Definition bind {A B : Type} (r : result A) (k : A -> result B) : result B :=
  match r with
  | Ok a => k a
  | Raise e => Raise e
  end.

Notation "x <- r ;; k" := (bind r (fun x => k))
  (at level 100, r at next level, right associativity).

(** A list comprehension or a [for] loop that builds a list: the elements are
    evaluated left to right and the first exception ends the loop. *)
Fixpoint mapM {A B : Type} (f : A -> result B) (l : list A) : result (list B) :=
  match l with
  | [] => Ok []
  | a :: l' => b <- f a ;; bs <- mapM f l' ;; Ok (b :: bs)
  end.

Definition is_Ok {A : Type} (r : result A) : Prop :=
  match r with Ok _ => True | Raise _ => False end.

(** ** The [str] methods and builtins used by [text_label.py] *)

(** [str.isspace] on U+0000..U+00FF: TAB..CR, FS..US, SPACE, NEL, NBSP. *)
Definition py_isspace (c : ascii) : bool :=
  let n := Z.of_nat (nat_of_ascii c) in
  ((9 <=? n) && (n <=? 13)) || ((28 <=? n) && (n <=? 32))
  || (n =? 133) || (n =? 160).

Fixpoint lstrip_by (p : ascii -> bool) (s : string) : string :=
  match s with
  | EmptyString => EmptyString
  | String c s' => if p c then lstrip_by p s' else s
  end.

Fixpoint rstrip_by (p : ascii -> bool) (s : string) : string :=
  match s with
  | EmptyString => EmptyString
  | String c s' =>
      match rstrip_by p s' with
      | EmptyString => if p c then EmptyString else String c EmptyString
      | t => String c t
      end
  end.

(** [s.strip()] *)
Definition str_strip (s : string) : string :=
  rstrip_by py_isspace (lstrip_by py_isspace s).

Fixpoint str_contains (chars : string) (c : ascii) : bool :=
  match chars with
  | EmptyString => false
  | String d r => Ascii.eqb c d || str_contains r c
  end.

(** [s.lstrip(chars)] *)
Definition str_lstrip (chars : string) (s : string) : string :=
  lstrip_by (str_contains chars) s.

(** [len(s)] *)
Definition len (s : string) : Z := Z.of_nat (String.length s).

(** [s[i:j]] for [0 <= i <= j] *)
Definition str_slice (s : string) (i j : nat) : string :=
  String.substring i (j - i) s.

(** [c * 2] on a one-character string *)
Definition str_twice (c : ascii) : string := String c (String c EmptyString).

(** [s.lower()] on U+0000..U+00FF *)
Definition chr_lower (c : ascii) : ascii :=
  let n := nat_of_ascii c in
  if ((65 <=? n) && (n <=? 90))%nat
     || ((192 <=? n) && (n <=? 222) && negb (n =? 215))%nat
  then ascii_of_nat (n + 32) else c.

Fixpoint str_lower (s : string) : string :=
  match s with
  | EmptyString => EmptyString
  | String c s' => String (chr_lower c) (str_lower s')
  end.

(** The value of a base-16 digit. *)
Definition hex_digit_value (c : ascii) : option Z :=
  let n := Z.of_nat (nat_of_ascii c) in
  if (48 <=? n) && (n <=? 57) then Some (n - 48)
  else if (97 <=? n) && (n <=? 102) then Some (n - 87)
  else if (65 <=? n) && (n <=? 70) then Some (n - 55)
  else None.

Definition is_underscore (c : ascii) : bool := Ascii.eqb c "_"%char.

(** The digit scan of CPython's [PyLong_FromString]: digits with single
    underscores between them; the scan stops at the first other character. *)
Fixpoint scan_digits (s : string) (prev_us : bool) (ndigits : nat) (acc : Z)
  : option (Z * nat * string) :=
  match s with
  | EmptyString => if prev_us then None else Some (acc, ndigits, EmptyString)
  | String c r =>
      if is_underscore c then
        if prev_us then None else scan_digits r true ndigits acc
      else
        match hex_digit_value c with
        | Some d => scan_digits r false (S ndigits) (acc * 16 + d)
        | None => if prev_us then None else Some (acc, ndigits, s)
        end
  end.

Definition strip_sign (s : string) : Z * string :=
  match s with
  | String "+"%char r => (1, r)
  | String "-"%char r => (-1, r)
  | _ => (1, s)
  end.

Definition strip_0x (s : string) : string :=
  match s with
  | String "0"%char (String x r) =>
      if Ascii.eqb x "x"%char || Ascii.eqb x "X"%char then
        match r with
        | String "_"%char r' => r'
        | _ => r
        end
      else s
  | _ => s
  end.

Definition starts_with_underscore (s : string) : bool :=
  match s with
  | String c _ => is_underscore c
  | EmptyString => false
  end.

(** [int(s, 16)]: surrounding whitespace, an optional sign, an optional
    [0x] prefix, then at least one digit. *)
Definition py_int16 (s : string) : result Z :=
  let '(sign, s1) := strip_sign (lstrip_by py_isspace s) in
  let s2 := strip_0x s1 in
  if starts_with_underscore s2 then Raise ValueError
  else
    match scan_digits s2 false 0 0 with
    | Some (v, S _, rest) =>
        match lstrip_by py_isspace rest with
        | EmptyString => Ok (sign * v)
        | _ => Raise ValueError
        end
    | _ => Raise ValueError
    end.

(** [int(x)] on a finite float: truncation towards zero. *)
Definition py_int_of_float (x : Q) : Z :=
  Z.quot (Qnum x) (Z.pos (Qden x)).

(** ** [text_label.hex_to_rgba] *)

(** [alpha] is a finite float, taken as the rational it denotes, and
    [alpha * 255] is the exact product. On the two calls of
    [add_text_label], [alpha = 1.0] and [alpha = k / 255.0] for an integer
    [k], the float product is exact as well for [0 <= k <= 255]. *)

Definition hex_to_rgba (hex_color : string) (alpha : Q)
  : result (Z * Z * Z * Z) :=
  let hex_color := str_lstrip "#" (str_strip hex_color) in
  rgb <-
    (if len hex_color =? 3 then
       l <- mapM (fun c => py_int16 (str_twice c)) (list_ascii_of_string hex_color) ;;
       match l with
       | [r; g; b] => Ok (r, g, b)
       | _ => Raise ValueError
       end
     else if len hex_color =? 6 then
       r <- py_int16 (str_slice hex_color 0 2) ;;
       g <- py_int16 (str_slice hex_color 2 4) ;;
       b <- py_int16 (str_slice hex_color 4 6) ;;
       Ok (r, g, b)
     else Ok (255, 255, 255)) ;;
  let '(r, g, b) := rgb in
  let alpha_value := Z.max 0 (Z.min 255 (py_int_of_float (alpha * 255))) in
  Ok (r, g, b, alpha_value).

(** ** [text_label.calculate_position] *)

(** The arguments are integers, so the final [int(x), int(y)] changes
    nothing. [//] on integers is the floor division, [Z.div]. *)

Definition calculate_position
  (image_width image_height box_width box_height : Z)
  (placement : string) (edge_offset : Z) : Z * Z :=
  let positions : gmap string (Z * Z) :=
    {[ "top_left" := (edge_offset, edge_offset) ;
       "top_right" := (image_width - box_width - edge_offset, edge_offset) ;
       "bottom_left" := (edge_offset, image_height - box_height - edge_offset) ;
       "bottom_right" := (image_width - box_width - edge_offset,
                          image_height - box_height - edge_offset) ;
       "center" := ((image_width - box_width) / 2,
                    (image_height - box_height) / 2) ]} in
  let '(x, y) := default (positions !!! "center") (positions !! placement) in
  (x, y).

(** ** Font resolution: [CUSTOM_FONTS], [SYSTEM_FONTS], [get_font_paths],
    [load_font] *)

Definition CUSTOM_FONTS : gmap string (list string) :=
  {[ "Funnel Sans" :=
       ["Funnel_Sans/static/FunnelSans-Regular.ttf"; "FunnelSans-Regular.ttf"] ;
     "Funnel Sans Bold" :=
       ["Funnel_Sans/static/FunnelSans-Bold.ttf"; "FunnelSans-Bold.ttf"] ;
     "Google Sans Code" :=
       ["Google_Sans_Code/static/GoogleSansCode-Regular.ttf";
        "GoogleSansCode-Regular.ttf"] ;
     "Google Sans Code Bold" :=
       ["Google_Sans_Code/static/GoogleSansCode-Bold.ttf";
        "GoogleSansCode-Bold.ttf"] ;
     "Arial" := ["arial.ttf"; "Arial.ttf"] ;
     "Arial Bold" := ["arialbd.ttf"; "Arialbd.ttf"; "Arial Bold.ttf"] ;
     "Monospace" := ["consola.ttf"; "Consola.ttf"; "DejaVuSansMono.ttf"] ]}.

Definition SYSTEM_FONTS : gmap string (list string) :=
  {[ "Arial" :=
       ["C:\Windows\Fonts\arial.ttf"; "/Library/Fonts/Arial.ttf";
        "/usr/share/fonts/truetype/msttcorefonts/Arial.ttf"] ;
     "Arial Bold" :=
       ["C:\Windows\Fonts\arialbd.ttf"; "/Library/Fonts/Arial Bold.ttf";
        "/usr/share/fonts/truetype/msttcorefonts/Arial_Bold.ttf"] ;
     "Monospace" :=
       ["C:\Windows\Fonts\consola.ttf"; "/Library/Fonts/Menlo.ttc";
        "/usr/share/fonts/truetype/dejavu/DejaVuSansMono.ttf"] ]}.

(** What the interpreter and the operating system answer:
    [os.path.dirname(__file__)], [platform.system()],
    [os.path.expanduser("~")] and the platform's [os.path.join]. *)
Record OsEnv : Type := mkOsEnv {
  module_dir : string;
  platform_system : string;
  user_home : string;
  os_path_join : string -> string -> string
}.

(** [posixpath.join] on two components. *)
Definition posixpath_join (a b : string) : string :=
  match b with
  | String "/"%char _ => b
  | _ =>
      if (len a =? 0) || String.eqb (str_slice a (String.length a - 1) (String.length a)) "/"
      then a +:+ b else a +:+ "/" +:+ b
  end.

(** The font half of Pillow: [ImageFont.truetype(path, size)] raises when the
    file is missing, unreadable or not a font; [ImageFont.load_default()]
    is the built-in font. *)
Record FontLib (Font : Type) : Type := mkFontLib {
  ImageFont_truetype : string -> Z -> result Font;
  ImageFont_load_default : Font
}.

Arguments ImageFont_truetype {Font} f _ _.
Arguments ImageFont_load_default {Font} f.

Definition get_font_paths (env : OsEnv) (font_family : string) : list string :=
  let paths := [] in
  let paths :=
    match CUSTOM_FONTS !! font_family with
    | Some filenames =>
        let local_fonts_dir := os_path_join env (module_dir env) "fonts" in
        paths ++ flat_map
                   (fun fname => [fname; os_path_join env local_fonts_dir fname])
                   filenames
    | None => paths
    end in
  let paths :=
    match SYSTEM_FONTS !! font_family with
    | Some l => paths ++ l
    | None => paths
    end in
  let paths :=
    if String.eqb (str_lower (platform_system env)) "linux" then
      let home := user_home env in
      paths ++
        [os_path_join env (os_path_join env home ".fonts") "DejaVuSansMono.ttf";
         os_path_join env
           (os_path_join env (os_path_join env (os_path_join env home ".local") "share") "fonts")
           "DejaVuSansMono.ttf"]
    else paths in
  paths.

(** [load_font]: the [for] loop over the candidate paths, whose
    [try]/[except Exception: continue] swallows every failure of
    [ImageFont.truetype], followed by [return ImageFont.load_default()]. *)
Fixpoint load_font_from {Font : Type} (lib : FontLib Font) (paths : list string)
  (font_size : Z) : result Font :=
  match paths with
  | [] => Ok (ImageFont_load_default lib)
  | font_path :: rest =>
      match ImageFont_truetype lib font_path font_size with
      | Ok f => Ok f
      | Raise _ => load_font_from lib rest font_size
      end
  end.

Definition load_font {Font : Type} (env : OsEnv) (lib : FontLib Font)
  (font_family : string) (font_size : Z) : result Font :=
  load_font_from lib (get_font_paths env font_family) font_size.

(** ** Tensors *)

Section Tensors.

Context {A : Type}.

(** One image [H, W, C]: the sample at row [y], column [x], channel [c]. *)
Definition Image : Type := Z -> Z -> Z -> A.

(** A 3D tensor [H, W, C]. *)
Record Tensor3 : Type := mkTensor3 {
  t3H : Z;
  t3W : Z;
  t3C : Z;
  t3data : Image
}.

(** A 4D tensor [B, H, W, C]; [B] is the number of items. *)
Record Tensor : Type := mkTensor {
  dimH : Z;
  dimW : Z;
  dimC : Z;
  items : list Image
}.

Definition dimB (t : Tensor) : Z := Z.of_nat (length (items t)).

Definition same_shape (t u : Tensor) : bool :=
  (dimH t =? dimH u) && (dimW t =? dimW u) && (dimC t =? dimC u).

(** [torch.zeros((b, h, w, c))]; a negative dimension is a RuntimeError. *)
Definition torch_zeros (zero : A) (b h w c : Z) : result Tensor :=
  if (b <? 0) || (h <? 0) || (w <? 0) || (c <? 0) then Raise RuntimeError
  else Ok (mkTensor h w c (replicate (Z.to_nat b) (fun _ _ _ => zero))).

(** [torch.cat(ts, dim=0)]: the list must be non-empty and the tensors must
    agree on every dimension but the first. *)
Definition torch_cat (ts : list Tensor) : result Tensor :=
  match ts with
  | [] => Raise RuntimeError
  | t0 :: rest =>
      if forallb (same_shape t0) rest
      then Ok (mkTensor (dimH t0) (dimW t0) (dimC t0) (concat (map items ts)))
      else Raise RuntimeError
  end.

(** [t[i]] for [0 <= i < B] as a 3D tensor. *)
Definition tensor_rows (t : Tensor) : list Tensor3 :=
  map (mkTensor3 (dimH t) (dimW t) (dimC t)) (items t).

Definition same_shape3 (t u : Tensor3) : bool :=
  (t3H t =? t3H u) && (t3W t =? t3W u) && (t3C t =? t3C u).

(** [torch.stack(ts, dim=0)]: the list must be non-empty and the tensors of
    one shape. *)
Definition torch_stack (ts : list Tensor3) : result Tensor :=
  match ts with
  | [] => Raise RuntimeError
  | t0 :: rest =>
      if forallb (same_shape3 t0) rest
      then Ok (mkTensor (t3H t0) (t3W t0) (t3C t0) (map t3data ts))
      else Raise RuntimeError
  end.

(** [t.unsqueeze(0)] *)
Definition unsqueeze0 (t : Tensor3) : Tensor :=
  mkTensor (t3H t) (t3W t) (t3C t) [t3data t].

(** The interpolation kernel of [F.interpolate(mode="bilinear",
    align_corners=False)] on one image: input height and width, output
    height and width, input image. Its sample values are floating point
    weighted means and stay a parameter. *)
Variable bilinear : Z -> Z -> Z -> Z -> Image -> Image.

(** [F.interpolate(t.permute(0, 3, 1, 2), size=(h, w), mode="bilinear",
    align_corners=False).permute(0, 2, 3, 1)]: the two permutations move the
    channel axis and back; the call rejects an input without channels and
    input or output sizes that are not positive. *)
Definition interpolate_bilinear (t : Tensor) (size_h size_w : Z) : result Tensor :=
  if (0 <? dimC t) && (0 <? dimH t) && (0 <? dimW t) && (0 <? size_h) && (0 <? size_w)
  then Ok (mkTensor size_h size_w (dimC t)
             (map (bilinear (dimH t) (dimW t) size_h size_w) (items t)))
  else Raise RuntimeError.

(** ** Arithmetic of [create_grid] *)

(** [math.ceil(a / b)]: true division, then the ceiling. The quotient is
    taken exactly; the float quotient has the same ceiling as long as
    [a < 2^52], far above any batch size. *)
Definition math_ceil_div (a b : Z) : result Z :=
  if b =? 0 then Raise ZeroDivisionError else Ok (- ((- a) / b)).

(** [math.ceil(math.sqrt(n))], with the exact square root; the float one
    has the same ceiling as long as [n < 2^52]. *)
Definition math_ceil_sqrt (n : Z) : result Z :=
  if n <? 0 then Raise ValueError
  else let s := Z.sqrt n in Ok (if s * s =? n then s else s + 1).

(** [a // b] and [a % b] *)
Definition py_floordiv (a b : Z) : result Z :=
  if b =? 0 then Raise ZeroDivisionError else Ok (a / b).

Definition py_mod (a b : Z) : result Z :=
  if b =? 0 then Raise ZeroDivisionError else Ok (a mod b).

(** The bound [i] of a slice over an axis of length [n] (step 1): a negative
    bound counts from the end, and the bound is clipped to the axis. *)
Definition slice_index (i n : Z) : Z :=
  if i <? 0 then Z.max 0 (i + n) else Z.min i n.

Definition broadcastable (src dst : Z) : bool := (src =? dst) || (src =? 1).

(** [grid[0, y_start:y_end, x_start:x_end, :] = src] where [src] has shape
    [h, w, c]: the selected region is the clipped rectangle, and the
    assignment needs [src] to broadcast to it. *)
Definition grid_setitem (grid : Tensor) (y_start y_end x_start x_end : Z)
  (src : Tensor3) : result Tensor :=
  match items grid with
  | [] => Raise RuntimeError
  | canvas :: others =>
      let y0 := slice_index y_start (dimH grid) in
      let y1 := slice_index y_end (dimH grid) in
      let x0 := slice_index x_start (dimW grid) in
      let x1 := slice_index x_end (dimW grid) in
      if broadcastable (t3H src) (Z.max 0 (y1 - y0))
         && broadcastable (t3W src) (Z.max 0 (x1 - x0))
         && broadcastable (t3C src) (dimC grid)
      then
        let painted : Image := fun y x ch =>
          if (y0 <=? y) && (y <? y1) && (x0 <=? x) && (x <? x1)
          then t3data src (if t3H src =? 1 then 0 else y - y0)
                          (if t3W src =? 1 then 0 else x - x0)
                          (if t3C src =? 1 then 0 else ch)
          else canvas y x ch in
        Ok (mkTensor (dimH grid) (dimW grid) (dimC grid) (painted :: others))
      else Raise RuntimeError
  end.

(** ** [ImageGrid.create_grid] *)

(** Lines 100-106: the number of columns and rows. *)
Definition grid_dimensions (columns batch_size : Z) : result (Z * Z) :=
  if 0 <? columns then
    let cols := columns in
    rows <- math_ceil_div batch_size cols ;;
    Ok (cols, rows)
  else
    cols <- math_ceil_sqrt batch_size ;;
    rows <- math_ceil_div batch_size cols ;;
    Ok (cols, rows).

(** Lines 120-129: the placement loop, [idx] running over the images. *)
Fixpoint place_images (grid : Tensor) (cols target_height target_width padding : Z)
  (idx : Z) (images : list Tensor3) : result Tensor :=
  match images with
  | [] => Ok grid
  | img :: rest =>
      row <- py_floordiv idx cols ;;
      col <- py_mod idx cols ;;
      let y_start := row * (target_height + padding) in
      let y_end := y_start + target_height in
      let x_start := col * (target_width + padding) in
      let x_end := x_start + target_width in
      grid' <- grid_setitem grid y_start y_end x_start x_end img ;;
      place_images grid' cols target_height target_width padding (idx + 1) rest
  end.

(** Lines 78-90: the body of the resizing loop. *)
Definition resize_to_target (target_height target_width : Z)
  (img_batch : Tensor) : result Tensor :=
  if negb (dimH img_batch =? target_height)
     || negb (dimW img_batch =? target_width)
  then interpolate_bilinear img_batch target_height target_width
  else Ok img_batch.

(** Lines 76-93: resize the batches that differ from the reference, then
    concatenate. *)
Definition normalize_batches (target_height target_width : Z)
  (all_images : list Tensor) : result Tensor :=
  processed_images <-
    mapM (resize_to_target target_height target_width) all_images ;;
  torch_cat processed_images.

(** Lines 109-110: the size of the canvas. *)
Definition grid_height (rows target_height padding : Z) : Z :=
  rows * target_height + (rows - 1) * padding.

Definition grid_width (cols target_width padding : Z) : Z :=
  cols * target_width + (cols - 1) * padding.

Definition create_grid (zero : A) (columns padding : Z)
  (image_1 image_2 image_3 image_4 image_5 image_6 : option Tensor)
  : result Tensor :=
  let all_images :=
    omap id [image_1; image_2; image_3; image_4; image_5; image_6] in
  match all_images with
  | [] => torch_zeros zero 1 512 512 3
  | first :: _ =>
      let target_height := dimH first in
      let target_width := dimW first in
      let channels := dimC first in
      final_images <- normalize_batches target_height target_width all_images ;;
      let batch_size := dimB final_images in
      if batch_size =? 0 then
        torch_zeros zero 1 target_height target_width channels
      else
        cr <- grid_dimensions columns batch_size ;;
        let '(cols, rows) := cr in
        let grid_height := grid_height rows target_height padding in
        let grid_width := grid_width cols target_width padding in
        grid <- torch_zeros zero 1 grid_height grid_width channels ;;
        place_images grid cols target_height target_width padding 0
          (tensor_rows final_images)
  end.

End Tensors.

Arguments Image A : clear implicits.
Arguments Tensor3 A : clear implicits.
Arguments Tensor A : clear implicits.

(** ** Pillow images *)

Inductive Mode : Type := ModeL | ModeLA | ModeRGB | ModeRGBA.

Definition bands (m : Mode) : Z :=
  match m with ModeL => 1 | ModeLA => 2 | ModeRGB => 3 | ModeRGBA => 4 end.

(** 8-bit pixel data: the byte at column [x], row [y], band [b]. *)
Definition Raster : Type := Z -> Z -> Z -> Byte.byte.

Record PILImage : Type := mkPIL {
  im_mode : Mode;
  im_width : Z;
  im_height : Z;
  im_data : Raster
}.

Definition byte_val (b : Byte.byte) : Z := Z.of_N (Byte.to_N b).

(** [.astype(np.uint8)] on an integral value. *)
Definition uint8 (z : Z) : Byte.byte :=
  match Byte.of_N (Z.to_N (z mod 256)) with
  | Some b => b
  | None => Byte.x00
  end.

(** [t.clamp(0, 1)] on one sample. *)
Definition clamp01 (x : Q) : Q :=
  let lo := if Qle_bool 0 x then x else 0%Q in
  if Qle_bool lo 1 then lo else 1%Q.

(** [numpy.round] on one sample: to the nearest integer, halves to even. *)
Definition np_round (q : Q) : Z :=
  let f := Qfloor q in
  match (2 * (q - inject_Z f) ?= 1)%Q with
  | Lt => f
  | Gt => f + 1
  | Eq => if Z.even f then f else f + 1
  end.

(** The sample conversion of [tensor_to_pil]. *)
Definition sample_to_uint8 (x : Q) : Byte.byte :=
  uint8 (np_round (clamp01 x * 255)).

(** [Image.fromarray] on a [uint8] array of shape [H, W, C]: the mode is
    chosen by the channel count, and one channel or more than four is a
    TypeError. *)
Definition fromarray_mode (c : Z) : result Mode :=
  if c =? 2 then Ok ModeLA
  else if c =? 3 then Ok ModeRGB
  else if c =? 4 then Ok ModeRGBA
  else Raise TypeError.

Definition tensor_to_pil (tensor : Tensor3 Q) : result PILImage :=
  m <- fromarray_mode (t3C tensor) ;;
  Ok (mkPIL m (t3W tensor) (t3H tensor)
        (fun x y b => sample_to_uint8 (t3data tensor y x b))).

Definition pil_to_tensor (image : PILImage) : Tensor3 Q :=
  mkTensor3 (im_height image) (im_width image) (bands (im_mode image))
    (fun y x c => (byte_val (im_data image x y c) # 255)%Q).

(** [image.convert("RGBA")] *)
Definition convert_RGBA (image : PILImage) : PILImage :=
  let d := im_data image in
  mkPIL ModeRGBA (im_width image) (im_height image)
    (fun x y b =>
       match im_mode image with
       | ModeRGBA => d x y b
       | ModeRGB => if b =? 3 then Byte.xff else d x y b
       | ModeL => if b =? 3 then Byte.xff else d x y 0
       | ModeLA => if b =? 3 then d x y 1 else d x y 0
       end).

(** [image.convert("RGB")] *)
Definition convert_RGB (image : PILImage) : PILImage :=
  let d := im_data image in
  mkPIL ModeRGB (im_width image) (im_height image)
    (fun x y b =>
       match im_mode image with
       | ModeRGBA | ModeRGB => d x y b
       | ModeL | ModeLA => d x y 0
       end).

(** [Image.new("RGBA", size, (0, 0, 0, 0))] *)
Definition Image_new_RGBA (width height : Z) : PILImage :=
  mkPIL ModeRGBA width height (fun _ _ _ => Byte.x00).

Definition Box : Type := (Z * Z * Z * Z)%type.
Definition RGBA : Type := (Z * Z * Z * Z)%type.

(** The measuring and painting half of Pillow. A painter receives the image
    it draws on and returns the new pixel data: drawing happens in place and
    leaves mode and size alone. Each may raise.
    - [textbbox font text] is [draw.textbbox((0, 0), text, font=font)];
    - [textlength font text] is [draw.textlength(text, font=font)];
    - [font_size font] is [font.size];
    - [rounded_rectangle im box radius fill];
    - [alpha_composite_data im1 im2], the blended pixels of two RGBA images
      of one size;
    - [multiline_text im xy text font fill align stroke_width stroke_fill]. *)
Record DrawLib (Font : Type) : Type := mkDrawLib {
  textbbox : Font -> string -> result Box;
  textlength : Font -> string -> result Q;
  font_size : Font -> result Q;
  rounded_rectangle : PILImage -> Box -> Z -> RGBA -> result Raster;
  alpha_composite_data : PILImage -> PILImage -> Raster;
  multiline_text :
    PILImage -> Z * Z -> string -> Font -> RGBA -> string -> Z -> RGBA -> result Raster
}.

Arguments textbbox {Font} d _ _.
Arguments textlength {Font} d _ _.
Arguments font_size {Font} d _.
Arguments rounded_rectangle {Font} d _ _ _ _.
Arguments alpha_composite_data {Font} d _ _.
Arguments multiline_text {Font} d _ _ _ _ _ _ _ _.

Definition same_mode (m n : Mode) : bool :=
  match m, n with
  | ModeL, ModeL | ModeLA, ModeLA | ModeRGB, ModeRGB | ModeRGBA, ModeRGBA => true
  | _, _ => false
  end.

(** [Image.alpha_composite(im1, im2)]: both images must be RGBA and of one
    size. *)
Definition Image_alpha_composite {Font : Type} (d : DrawLib Font)
  (im1 im2 : PILImage) : result PILImage :=
  if same_mode (im_mode im1) ModeRGBA && same_mode (im_mode im2) ModeRGBA
     && (im_width im1 =? im_width im2) && (im_height im1 =? im_height im2)
  then Ok (mkPIL ModeRGBA (im_width im1) (im_height im1)
             (alpha_composite_data d im1 im2))
  else Raise ValueError.

(** Drawing on [im] in place. *)
Definition repaint (im : PILImage) (r : result Raster) : result PILImage :=
  px <- r ;; Ok (mkPIL (im_mode im) (im_width im) (im_height im) px).

(** ** [text_label.get_text_bbox] *)

Definition get_text_bbox {Font : Type} (d : DrawLib Font) (text : string)
  (font : Font) : result Box :=
  match textbbox d font text with
  | Ok box => Ok box
  | Raise _ =>
      w <- textlength d font text ;;
      let width := py_int_of_float w in
      s <- font_size d font ;;
      let height := py_int_of_float s in
      Ok (0, 0, width, height)
  end.

(** ** [TextLabel.add_text_label] *)

(** The [image] argument: a 3D or a 4D tensor. *)
Inductive ImageArg : Type :=
| Arg3 (t : Tensor3 Q)
| Arg4 (t : Tensor Q).

(** The style arguments of [add_text_label]. *)
Record LabelStyle : Type := mkLabelStyle {
  text : string;
  font_family : string;
  font_size_arg : Z;
  text_align : string;
  placement : string;
  edge_offset : Z;
  color_scheme : string;
  padding : Z;
  corner_radius : Z;
  stroke_width : Z;
  background_opacity : Z
}.

(** Lines 230-288: the body of the loop, on the image [image[i]]. *)
Definition label_image {Font : Type} (d : DrawLib Font) (st : LabelStyle)
  (font : Font) (text_color bg_color stroke_color : string)
  (image_i : Tensor3 Q) : result (Tensor3 Q) :=
  im0 <- tensor_to_pil image_i ;;
  let pil_image := convert_RGBA im0 in
  bbox <- get_text_bbox d (text st) font ;;
  let '(left_, top, right_, bottom) := bbox in
  let text_width := right_ - left_ in
  let text_height := bottom - top in
  let box_width := text_width + padding st * 2 in
  let box_height := text_height + padding st * 2 in
  let '(x, y) :=
    calculate_position (im_width pil_image) (im_height pil_image)
      box_width box_height (placement st) (edge_offset st) in
  let overlay := Image_new_RGBA (im_width pil_image) (im_height pil_image) in
  let radius :=
    Z.max 0 (Z.min (corner_radius st) (Z.min box_width box_height / 2)) in
  fill <- hex_to_rgba bg_color (inject_Z (background_opacity st) / 255) ;;
  overlay <- repaint overlay
    (rounded_rectangle d overlay (x, y, x + box_width, y + box_height) radius fill) ;;
  pil_image <- Image_alpha_composite d pil_image overlay ;;
  let center_x := (inject_Z x + inject_Z box_width / 2)%Q in
  let center_y := (inject_Z y + inject_Z box_height / 2)%Q in
  let text_x :=
    py_int_of_float (center_x - inject_Z text_width / 2 - inject_Z left_) in
  let text_y :=
    py_int_of_float (center_y - inject_Z text_height / 2 - inject_Z top) in
  text_fill <- hex_to_rgba text_color 1 ;;
  stroke_fill <- hex_to_rgba stroke_color 1 ;;
  pil_image <- repaint pil_image
    (multiline_text d pil_image (text_x, text_y) (text st) font text_fill
       (text_align st) (stroke_width st) stroke_fill) ;;
  Ok (pil_to_tensor (convert_RGB pil_image)).

Definition add_text_label {Font : Type} (env : OsEnv) (fl : FontLib Font)
  (d : DrawLib Font) (image : ImageArg) (st : LabelStyle) : result (Tensor Q) :=
  let image :=
    match image with
    | Arg3 t => unsqueeze0 t
    | Arg4 t => t
    end in
  font <- load_font env fl (font_family st) (font_size_arg st) ;;
  let '(text_color, bg_color, stroke_color) :=
    if String.eqb (color_scheme st) "white_on_black"
    then ("#FFFFFF", "#000000", "#000000")
    else ("#000000", "#FFFFFF", "#FFFFFF") in
  output_images <-
    mapM (label_image d st font text_color bg_color stroke_color)
         (tensor_rows image) ;;
  torch_stack output_images.

(** ** Vocabulary of the statements *)

(** The string [hex_to_rgba] works on once it has stripped white space and
    leading [#] signs. *)
Definition color_body (hex_color : string) : string :=
  str_lstrip "#" (str_strip hex_color).




(** The alpha channel with the rounding replaced by the floor. *)
Definition floor_alpha (opacity : Q) : Z := Qfloor (clamp01 opacity * 255).

(** The centre anchor in the words of the specification: halves truncated
    towards zero. *)
Definition spec_center_truncated (image_width image_height box_width box_height : Z)
  : Z * Z :=
  (Z.quot (image_width - box_width) 2, Z.quot (image_height - box_height) 2).

Definition known_anchors : list string :=
  ["top_left"; "top_right"; "bottom_left"; "bottom_right"; "center"].

Ltac each_ascii c :=
  destruct c as [[] [] [] [] [] [] [] []].

(** ** Sample environments *)

(** A Linux host with the node pack under /opt/nodes. *)
Definition linux_env : OsEnv :=
  mkOsEnv "/opt/nodes" "Linux" "/home/u" posixpath_join.

(** A host that is not Linux. *)
Definition darwin_env : OsEnv :=
  mkOsEnv "/opt/nodes" "Darwin" "/Users/u" posixpath_join.

(** A font handle of the samples: the path and size it was loaded with;
    [None] is the built-in font. *)
Definition SampleFont : Type := option (string * Z).

(** A machine whose only font file is the bundled Arial.ttf. *)
Definition only_bundled_arial : FontLib SampleFont :=
  mkFontLib SampleFont
    (fun path size =>
       if String.eqb path "/opt/nodes/fonts/Arial.ttf"
       then Ok (Some (path, size)) else Raise OSError)
    None.

(** A machine without any font file. *)
Definition no_font_files : FontLib SampleFont :=
  mkFontLib SampleFont (fun _ _ => Raise OSError) None.

(** [ImageFont.truetype(path, size)] raises. *)
Definition font_fails {Font : Type} (lib : FontLib Font) (size : Z) (path : string) : Prop :=
  ~ is_Ok (ImageFont_truetype lib path size).

(** ** Vocabulary of the grid statements *)

(** A tensor shape has no negative dimension. *)
Definition shape_ok {A : Type} (t : Tensor A) : Prop :=
  0 <= dimH t /\ 0 <= dimW t /\ 0 <= dimC t.

(** The test of line 78. *)
Definition needs_resize {A : Type} (target_height target_width : Z) (t : Tensor A) : bool :=
  negb (dimH t =? target_height) || negb (dimW t =? target_width).

(** The images of a batch once it went through lines 78-90. *)
Definition resized_items {A : Type} (bilinear : Z -> Z -> Z -> Z -> Image A -> Image A)
  (target_height target_width : Z) (t : Tensor A) : list (Image A) :=
  if needs_resize target_height target_width t
  then map (bilinear (dimH t) (dimW t) target_height target_width) (items t)
  else items t.

(** A batch the normalizer can take: the reference channel count, and when
    it needs resizing, positive sizes on both sides of the interpolation. *)
Definition resizable {A : Type} (target_height target_width channels : Z)
  (t : Tensor A) : Prop :=
  dimC t = channels
  /\ (needs_resize target_height target_width t = true ->
      0 < dimC t /\ 0 < dimH t /\ 0 < dimW t
      /\ 0 < target_height /\ 0 < target_width).

(** The batch that lines 78-90 make of a batch they accept. *)
Definition processed_batch {A : Type}
  (bilinear : Z -> Z -> Z -> Z -> Image A -> Image A)
  (target_height target_width channels : Z) (t : Tensor A) : Tensor A :=
  mkTensor target_height target_width channels
    (resized_items bilinear target_height target_width t).

(** The top-left corner of the cell of image [idx], lines 121-126. *)
Definition cell_x (cols w padding idx : Z) : Z := (idx mod cols) * (w + padding).
Definition cell_y (cols h padding idx : Z) : Z := (idx / cols) * (h + padding).

(** The pixel (y, x) lies in the destination rectangle of image [idx]. *)
Definition in_cell (cols h w padding idx y x : Z) : Prop :=
  cell_y cols h padding idx <= y < cell_y cols h padding idx + h
  /\ cell_x cols w padding idx <= x < cell_x cols w padding idx + w.

(** ** Sample tensors *)

(** An image of one colour. *)
Definition flat (v : Q) : Image Q := fun _ _ _ => v.

(** A stand-in for the interpolation kernel: nearest neighbour. *)
Definition nearest (in_h in_w out_h out_w : Z) (img : Image Q) : Image Q :=
  fun y x c => img (y * in_h / out_h) (x * in_w / out_w) c.

Definition batch_128 : Tensor Q := mkTensor 128 128 3 [flat (1 # 4)].
Definition batch_64 : Tensor Q := mkTensor 64 64 3 [flat (1 # 2); flat 1].
Definition batch_128_rgba : Tensor Q := mkTensor 128 128 4 [flat 1].
Definition batch_flat : Tensor Q := mkTensor 0 0 3 [flat 1].
Definition empty_64 : Tensor Q := mkTensor 64 64 3 [].

(** [batch_128] followed by [batch_64] resized to 128x128. *)
Definition batch_128_then_64 : Tensor Q :=
  mkTensor 128 128 3
    [flat (1 # 4); nearest 64 64 128 128 (flat (1 # 2)); nearest 64 64 128 128 (flat 1)].

(** ** Vocabulary of the label statements *)

(** The colours [add_text_label] picks for a colour scheme: text,
    background, stroke. *)
Definition scheme_colors (st : LabelStyle) : string * string * string :=
  if String.eqb (color_scheme st) "white_on_black"
  then ("#FFFFFF", "#000000", "#000000")
  else ("#000000", "#FFFFFF", "#FFFFFF").

(** What [add_text_label] does to one image of the batch: it depends on the
    style, the fonts and that image alone. *)
Definition render_one {Font : Type} (env : OsEnv) (fl : FontLib Font)
  (d : DrawLib Font) (st : LabelStyle) (image_i : Tensor3 Q) : result (Tensor3 Q) :=
  font <- load_font env fl (font_family st) (font_size_arg st) ;;
  let '(text_color, bg_color, stroke_color) := scheme_colors st in
  label_image d st font text_color bg_color stroke_color image_i.

(** ** Sample painters *)

Definition in_box (box : Box) (x y : Z) : bool :=
  let '(x0, y0, x1, y1) := box in
  (x0 <=? x) && (x <=? x1) && (y0 <=? y) && (y <=? y1).

Definition rgba_band (fill : RGBA) (b : Z) : Z :=
  let '(r, g, bl, a) := fill in
  if b =? 0 then r else if b =? 1 then g else if b =? 2 then bl else a.

(** Painters that measure eight pixels per character, fill rectangles with
    square corners, paste the overlay where it is not transparent and draw
    the text as a dot. *)
Definition block_painters : DrawLib SampleFont :=
  mkDrawLib SampleFont
    (fun _ text => Ok (0, 2, 8 * len text, 12))
    (fun _ text => Ok (inject_Z (8 * len text)))
    (fun _ => Ok 10%Q)
    (fun im box _ fill =>
       Ok (fun x y b => if in_box box x y then uint8 (rgba_band fill b)
                        else im_data im x y b))
    (fun im1 im2 x y b =>
       if byte_val (im_data im2 x y 3) =? 0 then im_data im1 x y b
       else im_data im2 x y b)
    (fun im xy _ _ fill _ _ _ =>
       Ok (fun x y b => if (x =? fst xy) && (y =? snd xy) then uint8 (rgba_band fill b)
                        else im_data im x y b)).

Definition sample_style : LabelStyle :=
  mkLabelStyle "Hi" "Arial" 30 "left" "top_left" 5 "white_on_black" 3 4 1 128.

(** Three 40x60 RGB images, two of them with samples outside [0, 1]. *)
Definition label_batch : Tensor Q :=
  mkTensor 40 60 3 [flat (1 # 4); flat (3 # 2); flat (-1)].

(** ** Vocabulary of the further colour statements *)

(** Every character of the string is white space. *)
Fixpoint all_space (s : string) : bool :=
  match s with
  | EmptyString => true
  | String c r => py_isspace c && all_space r
  end.

(** The string starts with a white space character. *)
Definition starts_with_space (s : string) : bool :=
  match s with
  | String c _ => py_isspace c
  | EmptyString => false
  end.

(** All code points U+0000..U+00FF. *)
Definition all_chars : list ascii := map ascii_of_nat (seq 0 256).

(** A result of [int(..., 16)] on two characters is an error or lies between
    -15 and 255. *)
Definition pair_in_range (c1 c2 : ascii) : bool :=
  match py_int16 (String c1 (String c2 EmptyString)) with
  | Ok v => (-15 <=? v) && (v <=? 255)
  | Raise _ => true
  end.

(** ** The geometry of one label *)

(** What lines 236-258 and 272-275 compute from the measured text box and
    the image size: the box size, its position, the corner radius and the
    point the text is drawn at. *)
Record LabelGeometry : Type := mkLabelGeometry {
  g_box_width : Z;
  g_box_height : Z;
  g_x : Z;
  g_y : Z;
  g_radius : Z;
  g_text_x : Z;
  g_text_y : Z
}.

Definition label_geometry (st : LabelStyle) (bbox : Box)
  (image_width image_height : Z) : LabelGeometry :=
  let '(left_, top, right_, bottom) := bbox in
  let text_width := right_ - left_ in
  let text_height := bottom - top in
  let box_width := text_width + padding st * 2 in
  let box_height := text_height + padding st * 2 in
  let '(x, y) :=
    calculate_position image_width image_height box_width box_height
      (placement st) (edge_offset st) in
  let radius :=
    Z.max 0 (Z.min (corner_radius st) (Z.min box_width box_height / 2)) in
  let center_x := (inject_Z x + inject_Z box_width / 2)%Q in
  let center_y := (inject_Z y + inject_Z box_height / 2)%Q in
  let text_x :=
    py_int_of_float (center_x - inject_Z text_width / 2 - inject_Z left_) in
  let text_y :=
    py_int_of_float (center_y - inject_Z text_height / 2 - inject_Z top) in
  mkLabelGeometry box_width box_height x y radius text_x text_y.

(** The loop body of [add_text_label] with its arithmetic gathered in
    [label_geometry]. *)
Definition label_image_with_geometry {Font : Type} (d : DrawLib Font)
  (st : LabelStyle) (font : Font) (text_color bg_color stroke_color : string)
  (image_i : Tensor3 Q) : result (Tensor3 Q) :=
  im0 <- tensor_to_pil image_i ;;
  let pil_image := convert_RGBA im0 in
  bbox <- get_text_bbox d (text st) font ;;
  let g := label_geometry st bbox (im_width pil_image) (im_height pil_image) in
  let overlay := Image_new_RGBA (im_width pil_image) (im_height pil_image) in
  fill <- hex_to_rgba bg_color (inject_Z (background_opacity st) / 255) ;;
  overlay <- repaint overlay
    (rounded_rectangle d overlay
       (g_x g, g_y g, g_x g + g_box_width g, g_y g + g_box_height g)
       (g_radius g) fill) ;;
  pil_image <- Image_alpha_composite d pil_image overlay ;;
  text_fill <- hex_to_rgba text_color 1 ;;
  stroke_fill <- hex_to_rgba stroke_color 1 ;;
  pil_image <- repaint pil_image
    (multiline_text d pil_image (g_text_x g, g_text_y g) (text st) font text_fill
       (text_align st) (stroke_width st) stroke_fill) ;;
  Ok (pil_to_tensor (convert_RGB pil_image)).

(** The 4D tensor [add_text_label] works on: a 3D image is a batch of one. *)
Definition as_batch (image : ImageArg) : Tensor Q :=
  match image with
  | Arg3 t => unsqueeze0 t
  | Arg4 t => t
  end.

(** * Properties *)

(** ** Colour resolution *)

Lemma Qle_bool_false (a b : Q) : Qle_bool a b = false -> (b < a)%Q.
Proof.
  intros H. apply Qnot_le_lt. intros Hle. apply Qle_bool_iff in Hle. congruence.
Qed.

Lemma clamp01_cases (x : Q) :
  ((x < 0)%Q /\ clamp01 x = 0%Q) \/
  ((0 <= x)%Q /\ (x <= 1)%Q /\ clamp01 x = x) \/
  ((1 < x)%Q /\ clamp01 x = 1%Q).
Proof.
  unfold clamp01.
  destruct (Qle_bool 0 x) eqn:H0.
  - apply Qle_bool_iff in H0.
    destruct (Qle_bool x 1) eqn:H1.
    + apply Qle_bool_iff in H1. right. left. auto.
    + apply Qle_bool_false in H1. right. right. auto.
  - apply Qle_bool_false in H0. left. split; [assumption|].
    reflexivity.
Qed.

Lemma alpha_value_floor (alpha : Q) :
  Z.max 0 (Z.min 255 (py_int_of_float (alpha * 255))) = floor_alpha alpha.
Proof.
  unfold floor_alpha, py_int_of_float.
  destruct (clamp01_cases alpha) as [[Hlt ->] | [(H0 & H1 & ->) | [Hgt ->]]].
  - change (Qfloor (0 * 255)) with 0.
    destruct alpha as [n d]. unfold Qlt in Hlt. simpl in *.
    rewrite Pos.mul_1_r.
    assert (n < 0) by lia.
    assert (Z.quot (n * 255) (Z.pos d) <= 0).
    { apply Z.quot_le_upper_bound; lia. }
    lia.
  - destruct alpha as [n d]. unfold Qle in *. simpl in *.
    rewrite Pos.mul_1_r.
    assert (0 <= n) by lia.
    rewrite Z.quot_div_nonneg by lia.
    assert (0 <= n * 255 / Z.pos d) by (apply Z.div_pos; lia).
    assert (n * 255 / Z.pos d <= 255).
    { apply Z.div_le_upper_bound; lia. }
    lia.
  - change (Qfloor (1 * 255)) with 255.
    destruct alpha as [n d]. unfold Qlt in Hgt. simpl in *.
    rewrite Pos.mul_1_r.
    assert (255 <= Z.quot (n * 255) (Z.pos d)).
    { rewrite Z.quot_div_nonneg by lia. apply Z.div_le_lower_bound; lia. }
    lia.
Qed.

Lemma py_int16_twice (c : ascii) (d : Z) :
  hex_digit_value c = Some d -> py_int16 (str_twice c) = Ok (17 * d).
Proof.
  each_ascii c; intros H; vm_compute in H; try discriminate H;
    injection H as <-; reflexivity.
Qed.

Lemma py_int16_twice_bad (c : ascii) :
  hex_digit_value c = None -> py_int16 (str_twice c) = Raise ValueError.
Proof.
  each_ascii c; intros H; vm_compute in H; try discriminate H; reflexivity.
Qed.

Lemma py_int16_pair (c1 c2 : ascii) (d1 d2 : Z) :
  hex_digit_value c1 = Some d1 -> hex_digit_value c2 = Some d2 ->
  py_int16 (String c1 (String c2 EmptyString)) = Ok (16 * d1 + d2).
Proof.
  intros H1 H2.
  each_ascii c1; vm_compute in H1; try discriminate H1; injection H1 as <-;
    each_ascii c2; vm_compute in H2; try discriminate H2; injection H2 as <-;
    reflexivity.
Qed.

Lemma hex_digit_value_range (c : ascii) (d : Z) :
  hex_digit_value c = Some d -> 0 <= d <= 15.
Proof.
  each_ascii c; intros H; vm_compute in H; try discriminate H;
    injection H as <-; lia.
Qed.

Lemma hex_to_rgba_unfold (hex_color : string) (alpha : Q) :
  hex_to_rgba hex_color alpha =
  let body := color_body hex_color in
  rgb <-
    (if len body =? 3 then
       l <- mapM (fun c => py_int16 (str_twice c)) (list_ascii_of_string body) ;;
       match l with
       | [r; g; b] => Ok (r, g, b)
       | _ => Raise ValueError
       end
     else if len body =? 6 then
       r <- py_int16 (str_slice body 0 2) ;;
       g <- py_int16 (str_slice body 2 4) ;;
       b <- py_int16 (str_slice body 4 6) ;;
       Ok (r, g, b)
     else Ok (255, 255, 255)) ;;
  let '(r, g, b) := rgb in
  Ok (r, g, b, floor_alpha alpha).
Proof.
  unfold hex_to_rgba, color_body. cbv zeta.
  rewrite alpha_value_floor. reflexivity.
Qed.


Lemma hex_to_rgba_six (hex_color : string) (alpha : Q)
  (c1 c2 c3 c4 c5 c6 : ascii) (d1 d2 d3 d4 d5 d6 : Z) :
  color_body hex_color =
    String c1 (String c2 (String c3 (String c4 (String c5 (String c6 EmptyString))))) ->
  hex_digit_value c1 = Some d1 -> hex_digit_value c2 = Some d2 ->
  hex_digit_value c3 = Some d3 -> hex_digit_value c4 = Some d4 ->
  hex_digit_value c5 = Some d5 -> hex_digit_value c6 = Some d6 ->
  hex_to_rgba hex_color alpha =
    Ok (16 * d1 + d2, 16 * d3 + d4, 16 * d5 + d6, floor_alpha alpha).
Proof.
  intros Hb H1 H2 H3 H4 H5 H6. rewrite hex_to_rgba_unfold, Hb. cbv zeta.
  match goal with |- context [len ?s =? 3] => change (len s =? 3) with false end.
  match goal with |- context [len ?s =? 6] => change (len s =? 6) with true end.
  cbv [str_slice]. cbn [String.substring Nat.sub].
  rewrite (py_int16_pair _ _ _ _ H1 H2), (py_int16_pair _ _ _ _ H3 H4),
    (py_int16_pair _ _ _ _ H5 H6).
  reflexivity.
Qed.





(** ** Colour resolution and exceptions *)

Lemma py_int16_raises_ValueError (s : string) (e : PyExc) :
  py_int16 s = Raise e -> e = ValueError.
Proof.
  unfold py_int16.
  destruct (strip_sign (lstrip_by py_isspace s)) as [sign s1].
  destruct (starts_with_underscore (strip_0x s1)); [congruence |].
  destruct (scan_digits (strip_0x s1) false 0 0) as [[[v [| n]] rest] |];
    try congruence.
  destruct (lstrip_by py_isspace rest); congruence.
Qed.

Lemma len_three (s : string) :
  len s = 3 -> exists c1 c2 c3, s = String c1 (String c2 (String c3 EmptyString)).
Proof.
  unfold len. destruct s as [| c1 [| c2 [| c3 [| c4 s]]]]; simpl; try lia.
  intros _. eauto.
Qed.

Lemma len_six (s : string) :
  len s = 6 ->
  exists c1 c2 c3 c4 c5 c6,
    s = String c1 (String c2 (String c3 (String c4 (String c5 (String c6 EmptyString))))).
Proof.
  unfold len.
  destruct s as [| c1 [| c2 [| c3 [| c4 [| c5 [| c6 [| c7 s]]]]]]]; simpl; try lia.
  intros _. do 6 eexists. reflexivity.
Qed.





(** ** Placement resolver *)

Lemma calculate_position_unknown (iw ih bw bh e : Z) (placement : string) :
  placement ∉ known_anchors ->
  calculate_position iw ih bw bh placement e =
  calculate_position iw ih bw bh "center" e.
Proof.
  intros Hn. unfold known_anchors in Hn.
  rewrite !not_elem_of_cons in Hn. destruct Hn as (n1 & n2 & n3 & n4 & n5 & _).
  unfold calculate_position. cbv zeta.
  match goal with
  | |- context [?m !! placement] =>
      replace (m !! placement) with (@None (Z * Z)); [reflexivity |]
  end.
  symmetry. simplify_map_eq. reflexivity.
Qed.

(** C7, as stated, fails: the centre anchor is computed with [//], which
    rounds down, not towards zero. A 13x13 box on a 10x10 image is placed at
    (-2, -2); truncated halves are (-1, -1). *)
Lemma calculate_position_center_is_not_truncated :
  calculate_position 10 10 13 13 "center" 0 = (-2, -2)
  /\ spec_center_truncated 10 10 13 13 = (-1, -1)
  /\ calculate_position 10 10 13 13 "center" 0 <> spec_center_truncated 10 10 13 13.
Proof.
  split; [reflexivity | split; [reflexivity |]].
  intros H. vm_compute in H. discriminate H.
Qed.

(** C7 (amended): [calculate_position] returns the per-anchor formulas, the
    centre being the halves rounded down (floor division), which are the
    truncated halves whenever the box is no larger than the image; an
    unrecognized anchor gives the centre position; nothing is clamped to the
    image, so a coordinate may be negative; image (200, 100), box (50, 20),
    anchor bottom_right, offset 10 gives (140, 70). *)
Theorem calculate_position_anchors (iw ih bw bh e : Z) :
  calculate_position iw ih bw bh "top_left" e = (e, e)
  /\ calculate_position iw ih bw bh "top_right" e = (iw - bw - e, e)
  /\ calculate_position iw ih bw bh "bottom_left" e = (e, ih - bh - e)
  /\ calculate_position iw ih bw bh "bottom_right" e = (iw - bw - e, ih - bh - e)
  /\ calculate_position iw ih bw bh "center" e = ((iw - bw) / 2, (ih - bh) / 2)
  /\ (forall placement, placement ∉ known_anchors ->
        calculate_position iw ih bw bh placement e = ((iw - bw) / 2, (ih - bh) / 2))
  /\ (bw <= iw -> bh <= ih ->
        calculate_position iw ih bw bh "center" e = spec_center_truncated iw ih bw bh)
  /\ calculate_position 200 100 50 20 "bottom_right" 10 = (140, 70)
  /\ calculate_position 100 100 300 20 "top_right" 10 = (-210, 10).
Proof.
  repeat split; try reflexivity.
  - intros placement Hn. rewrite (calculate_position_unknown _ _ _ _ _ _ Hn).
    reflexivity.
  - intros Hw Hh. unfold spec_center_truncated.
    rewrite !Z.quot_div_nonneg by lia. reflexivity.
Qed.

Lemma calculate_position_anchors_witness :
  calculate_position 200 100 50 20 "middle" 10 = (75, 40)
  /\ calculate_position 200 100 50 20 "center" 10 = spec_center_truncated 200 100 50 20.
Proof.
  destruct (calculate_position_anchors 200 100 50 20 10)
    as (_ & _ & _ & _ & _ & Hu & Hc & _).
  split.
  - apply (Hu "middle"). unfold known_anchors. rewrite !not_elem_of_cons.
    repeat split; try discriminate. apply not_elem_of_nil.
  - apply Hc; lia.
Defined.

(** ** Font resolution *)

Lemma load_font_from_first {Font : Type} (lib : FontLib Font) (size : Z)
  (before after : list string) (path : string) (f : Font) :
  Forall (font_fails lib size) before ->
  ImageFont_truetype lib path size = Ok f ->
  load_font_from lib (before ++ path :: after) size = Ok f.
Proof.
  intros Hfail Hok. induction Hfail as [| p before Hp _ IH]; simpl.
  - rewrite Hok. reflexivity.
  - unfold font_fails in Hp.
    destruct (ImageFont_truetype lib p size); [exfalso; apply Hp; exact I | exact IH].
Qed.

Lemma load_font_from_none {Font : Type} (lib : FontLib Font) (size : Z)
  (paths : list string) :
  Forall (font_fails lib size) paths ->
  load_font_from lib paths size = Ok (ImageFont_load_default lib).
Proof.
  intros Hfail. induction Hfail as [| p paths Hp _ IH]; simpl.
  - reflexivity.
  - unfold font_fails in Hp.
    destruct (ImageFont_truetype lib p size); [exfalso; apply Hp; exact I | exact IH].
Qed.

Lemma load_font_from_total {Font : Type} (lib : FontLib Font) (size : Z)
  (paths : list string) :
  is_Ok (load_font_from lib paths size).
Proof.
  induction paths as [| p paths IH]; simpl; [exact I |].
  destruct (ImageFont_truetype lib p size); [exact I | exact IH].
Qed.

(** C6: [load_font] tries the candidate paths in list order and returns the
    font of the first path that loads; when every candidate fails, and so
    when the family is unknown and no path exists at all, it returns the
    built-in default font; it never raises. *)
Theorem load_font_first_loadable {Font : Type} (env : OsEnv) (lib : FontLib Font)
  (family : string) (size : Z) :
  (forall before path after f,
      get_font_paths env family = before ++ path :: after ->
      Forall (font_fails lib size) before ->
      ImageFont_truetype lib path size = Ok f ->
      load_font env lib family size = Ok f)
  /\ (Forall (font_fails lib size) (get_font_paths env family) ->
      load_font env lib family size = Ok (ImageFont_load_default lib))
  /\ (get_font_paths env family = [] ->
      load_font env lib family size = Ok (ImageFont_load_default lib))
  /\ is_Ok (load_font env lib family size).
Proof.
  unfold load_font. repeat split.
  - intros before path after f -> Hfail Hok.
    apply load_font_from_first; assumption.
  - apply load_font_from_none.
  - intros ->. reflexivity.
  - apply load_font_from_total.
Qed.

Lemma load_font_first_loadable_witness :
  load_font linux_env only_bundled_arial "Arial" 30
    = Ok (Some ("/opt/nodes/fonts/Arial.ttf", 30))
  /\ load_font linux_env no_font_files "Arial" 30 = Ok None
  /\ load_font darwin_env only_bundled_arial "Comic Sans" 30 = Ok None.
Proof.
  destruct (load_font_first_loadable linux_env only_bundled_arial "Arial" 30)
    as (Hfirst & _).
  destruct (load_font_first_loadable linux_env no_font_files "Arial" 30)
    as (_ & Hnone & _).
  destruct (load_font_first_loadable darwin_env only_bundled_arial "Comic Sans" 30)
    as (_ & _ & Hempty & _).
  split; [| split].
  - apply (Hfirst ["arial.ttf"; "/opt/nodes/fonts/arial.ttf"; "Arial.ttf"]
             "/opt/nodes/fonts/Arial.ttf"
             ["C:\Windows\Fonts\arial.ttf"; "/Library/Fonts/Arial.ttf";
              "/usr/share/fonts/truetype/msttcorefonts/Arial.ttf";
              "/home/u/.fonts/DejaVuSansMono.ttf";
              "/home/u/.local/share/fonts/DejaVuSansMono.ttf"]).
    + reflexivity.
    + repeat constructor; intros H; exact H.
    + reflexivity.
  - apply Hnone. vm_compute get_font_paths.
    repeat constructor; intros H; exact H.
  - apply Hempty. reflexivity.
Defined.

(** ** Grid layout arithmetic *)

Lemma math_ceil_div_spec (a b : Z) :
  0 < b ->
  exists q, math_ceil_div a b = Ok q /\ (q - 1) * b < a <= q * b.
Proof.
  intros Hb. unfold math_ceil_div.
  destruct (b =? 0) eqn:E; [apply Z.eqb_eq in E; lia |].
  eexists. split; [reflexivity |].
  pose proof (Z.div_mod (- a) b ltac:(lia)) as Hdm.
  pose proof (Z.mod_pos_bound (- a) b Hb) as Hm.
  nia.
Qed.

Lemma math_ceil_sqrt_spec (n : Z) :
  1 <= n ->
  exists s, math_ceil_sqrt n = Ok s /\ 0 < s /\ (s - 1) * (s - 1) < n <= s * s.
Proof.
  intros Hn. unfold math_ceil_sqrt.
  destruct (n <? 0) eqn:E; [apply Z.ltb_lt in E; lia |].
  pose proof (Z.sqrt_spec n ltac:(lia)) as Hs.
  pose proof (Z.sqrt_nonneg n) as Hs0.
  cbv zeta in *. rewrite <- Z.add_1_r in Hs.
  generalize dependent (Z.sqrt n). intros s Hs Hs0.
  eexists. split; [reflexivity |].
  destruct (s * s =? n) eqn:Esq.
  - apply Z.eqb_eq in Esq. repeat split; nia.
  - apply Z.eqb_neq in Esq.
    replace (s + 1 - 1) with s by lia. repeat split; nia.
Qed.

Lemma grid_dimensions_spec (columns batch_size : Z) :
  1 <= batch_size ->
  exists cols rows,
    grid_dimensions columns batch_size = Ok (cols, rows)
    /\ 0 < cols /\ 0 < rows
    /\ (0 < columns -> cols = columns)
    /\ (columns <= 0 -> (cols - 1) * (cols - 1) < batch_size <= cols * cols)
    /\ (rows - 1) * cols < batch_size <= rows * cols.
Proof.
  intros Hb. unfold grid_dimensions.
  destruct (0 <? columns) eqn:E.
  - apply Z.ltb_lt in E.
    destruct (math_ceil_div_spec batch_size columns E) as (rows & -> & Hr).
    exists columns, rows. simpl. repeat split; try lia; nia.
  - apply Z.ltb_ge in E.
    destruct (math_ceil_sqrt_spec batch_size Hb) as (cols & -> & Hc0 & Hc).
    simpl.
    destruct (math_ceil_div_spec batch_size cols Hc0) as (rows & -> & Hr).
    exists cols, rows. simpl. repeat split; try lia; nia.
Qed.

(** ** Cell geometry *)

Section CellGeometry.

Variables cols rows h w padding : Z.
Hypothesis cols_pos : 0 < cols.
Hypothesis h_nonneg : 0 <= h.
Hypothesis w_nonneg : 0 <= w.
Hypothesis padding_nonneg : 0 <= padding.

Lemma cell_in_canvas (idx : Z) :
  0 <= idx < rows * cols ->
  0 <= cell_x cols w padding idx
  /\ cell_x cols w padding idx + w <= cols * w + (cols - 1) * padding
  /\ 0 <= cell_y cols h padding idx
  /\ cell_y cols h padding idx + h <= rows * h + (rows - 1) * padding.
Proof.
  intros Hidx. unfold cell_x, cell_y.
  pose proof (Z.mod_pos_bound idx cols cols_pos) as Hm.
  pose proof (Z.div_mod idx cols ltac:(lia)) as Hdm.
  assert (0 <= idx / cols) by (apply Z.div_pos; lia).
  assert (idx / cols < rows) by (apply Z.div_lt_upper_bound; nia).
  repeat split; nia.
Qed.

Lemma cells_disjoint (i j y x : Z) :
  0 <= i -> 0 <= j -> i <> j ->
  in_cell cols h w padding i y x -> in_cell cols h w padding j y x -> False.
Proof.
  intros Hi Hj Hne [Hyi Hxi] [Hyj Hxj]. unfold cell_x, cell_y in *.
  pose proof (Z.mod_pos_bound i cols cols_pos) as Hmi.
  pose proof (Z.mod_pos_bound j cols cols_pos) as Hmj.
  pose proof (Z.div_mod i cols ltac:(lia)) as Hdi.
  pose proof (Z.div_mod j cols ltac:(lia)) as Hdj.
  assert (Hcol : i mod cols = j mod cols).
  { destruct (Z.lt_total (i mod cols) (j mod cols)) as [Hlt | [Heq | Hgt]];
      [exfalso; nia | exact Heq | exfalso; nia]. }
  assert (Hrow : i / cols = j / cols).
  { destruct (Z.lt_total (i / cols) (j / cols)) as [Hlt | [Heq | Hgt]];
      [exfalso; nia | exact Heq | exfalso; nia]. }
  apply Hne. rewrite Hdi, Hdj, Hcol, Hrow. reflexivity.
Qed.

End CellGeometry.

(** ** Pasting into the canvas *)

Section Placement.

Context {A : Type}.

Lemma slice_index_inside (i n : Z) : 0 <= i <= n -> slice_index i n = i.
Proof. intros H. unfold slice_index. destruct (i <? 0) eqn:E; lia. Qed.

Lemma broadcastable_refl (n : Z) : broadcastable n n = true.
Proof. unfold broadcastable. rewrite Z.eqb_refl. reflexivity. Qed.

(** An assignment to a rectangle that lies inside the canvas succeeds, copies
    the source into the rectangle and leaves every other pixel alone. *)
Lemma grid_setitem_inside (gh gw c : Z) (canvas : Image A) (src : Tensor3 A)
  (y0 x0 : Z) :
  t3C src = c -> 0 <= t3H src -> 0 <= t3W src ->
  0 <= y0 -> y0 + t3H src <= gh -> 0 <= x0 -> x0 + t3W src <= gw ->
  exists canvas' : Image A,
    grid_setitem (mkTensor gh gw c [canvas]) y0 (y0 + t3H src) x0 (x0 + t3W src) src
      = Ok (mkTensor gh gw c [canvas'])
    /\ (forall y x ch,
          y0 <= y < y0 + t3H src -> x0 <= x < x0 + t3W src -> 0 <= ch < c ->
          canvas' y x ch = t3data src (y - y0) (x - x0) ch)
    /\ (forall y x ch,
          ~ (y0 <= y < y0 + t3H src /\ x0 <= x < x0 + t3W src) ->
          canvas' y x ch = canvas y x ch).
Proof.
  intros Hc Hh Hw Hy0 Hy1 Hx0 Hx1.
  unfold grid_setitem. cbn [items dimH dimW dimC]. cbv zeta.
  rewrite !slice_index_inside by lia.
  replace (Z.max 0 (y0 + t3H src - y0)) with (t3H src) by lia.
  replace (Z.max 0 (x0 + t3W src - x0)) with (t3W src) by lia.
  rewrite Hc, !broadcastable_refl. cbn [andb].
  eexists. split; [reflexivity |]. split.
  - intros y x ch Hy Hx Hch. cbv beta.
    replace ((y0 <=? y) && (y <? y0 + t3H src) && (x0 <=? x) && (x <? x0 + t3W src))
      with true by (symmetry; rewrite !andb_true_iff; lia).
    f_equal.
    + destruct (t3H src =? 1) eqn:E; [apply Z.eqb_eq in E; lia | reflexivity].
    + destruct (t3W src =? 1) eqn:E; [apply Z.eqb_eq in E; lia | reflexivity].
    + destruct (c =? 1) eqn:E; [apply Z.eqb_eq in E; lia | reflexivity].
  - intros y x ch Hout. cbv beta.
    replace ((y0 <=? y) && (y <? y0 + t3H src) && (x0 <=? x) && (x <? x0 + t3W src))
      with false; [reflexivity |].
    symmetry. apply not_true_is_false. rewrite !andb_true_iff. intros Hin.
    apply Hout. lia.
Qed.

Variables cols rows h w c padding : Z.
Hypothesis cols_pos : 0 < cols.
Hypothesis h_nonneg : 0 <= h.
Hypothesis w_nonneg : 0 <= w.
Hypothesis padding_nonneg : 0 <= padding.

Local Abbreviation gh := (grid_height rows h padding).
Local Abbreviation gw := (grid_width cols w padding).

(** The placement loop from index [idx0] on: it succeeds, every image ends
    up in its own cell, and a pixel outside the cells of the loop keeps its
    value. *)
Lemma place_images_spec (images : list (Image A)) :
  forall (idx0 : Z) (canvas : Image A),
    0 <= idx0 ->
    idx0 + Z.of_nat (length images) <= rows * cols ->
    exists canvas' : Image A,
      place_images (mkTensor gh gw c [canvas]) cols h w padding idx0
        (map (mkTensor3 h w c) images)
        = Ok (mkTensor gh gw c [canvas'])
      /\ (forall (j : nat) (img : Image A) y x ch,
            images !! j = Some img ->
            in_cell cols h w padding (idx0 + Z.of_nat j) y x -> 0 <= ch < c ->
            canvas' y x ch =
              img (y - cell_y cols h padding (idx0 + Z.of_nat j))
                  (x - cell_x cols w padding (idx0 + Z.of_nat j)) ch)
      /\ (forall y x ch,
            (forall j : nat, (j < length images)%nat ->
                             ~ in_cell cols h w padding (idx0 + Z.of_nat j) y x) ->
            canvas' y x ch = canvas y x ch).
Proof.
  induction images as [| img images IH]; intros idx0 canvas Hidx Hlen.
  - exists canvas. split; [reflexivity |]. split.
    + intros j img' y x ch Hj. rewrite lookup_nil in Hj. discriminate Hj.
    + reflexivity.
  - cbn [length] in Hlen.
    destruct (cell_in_canvas cols rows h w padding cols_pos h_nonneg w_nonneg
                padding_nonneg idx0 ltac:(lia)) as (Hx0 & Hx1 & Hy0 & Hy1).
    fold gw in Hx1. fold gh in Hy1.
    cbn [map place_images]. unfold py_floordiv, py_mod.
    replace (cols =? 0) with false by (symmetry; apply Z.eqb_neq; lia).
    cbn [bind]. fold (cell_y cols h padding idx0) (cell_x cols w padding idx0).
    destruct (grid_setitem_inside gh gw c canvas (mkTensor3 h w c img)
                (cell_y cols h padding idx0) (cell_x cols w padding idx0))
      as (canvas1 & Hset & Hin1 & Hout1); cbn [t3H t3W t3C]; try lia; try reflexivity.
    cbn [t3H t3W t3C t3data] in *. rewrite Hset. cbn [bind].
    destruct (IH (idx0 + 1) canvas1 ltac:(lia) ltac:(lia))
      as (canvas' & Hplace & Hin & Hout).
    exists canvas'. split; [exact Hplace |]. split.
    + intros [| j] img' y x ch Hj Hcell Hch.
      * cbn in Hj. injection Hj as <-.
        rewrite Z.add_0_r in *.
        rewrite Hout.
        -- apply Hin1; [apply Hcell | apply Hcell | exact Hch].
        -- intros j _ Hother.
           eapply (cells_disjoint cols h w padding)
             with (i := idx0) (j := idx0 + 1 + Z.of_nat j);
             try eassumption; lia.
      * cbn in Hj.
        replace (idx0 + Z.of_nat (S j)) with (idx0 + 1 + Z.of_nat j) in * by lia.
        apply (Hin j img'); assumption.
    + intros y x ch Hnone.
      rewrite Hout.
      * apply Hout1. intros Hcell.
        apply (Hnone 0%nat); [cbn; lia |].
        rewrite Z.add_0_r. exact Hcell.
      * intros j Hj Hcell. apply (Hnone (S j)); [cbn; lia |].
        replace (idx0 + Z.of_nat (S j)) with (idx0 + 1 + Z.of_nat j) by lia.
        exact Hcell.
Qed.

End Placement.

(** ** Batch normalizer *)

Section Normalizer.

Context {A : Type}.
Variable bilinear : Z -> Z -> Z -> Z -> Image A -> Image A.
Variables target_height target_width channels : Z.

Local Abbreviation resizable := (resizable target_height target_width channels).
Local Abbreviation process := (resize_to_target bilinear target_height target_width).
Local Abbreviation processed := (processed_batch bilinear target_height target_width channels).

Lemma process_resizable (t : Tensor A) :
  resizable t -> process t = Ok (processed t).
Proof.
  intros [Hc Hr]. unfold resize_to_target, processed_batch, resized_items.
  fold (needs_resize target_height target_width t).
  destruct (needs_resize target_height target_width t) eqn:E.
  - destruct (Hr eq_refl) as (h1 & h2 & h3 & h4 & h5).
    unfold interpolate_bilinear.
    replace ((0 <? dimC t) && (0 <? dimH t) && (0 <? dimW t)
             && (0 <? target_height) && (0 <? target_width)) with true
      by (symmetry; rewrite !andb_true_iff, !Z.ltb_lt; lia).
    rewrite Hc. reflexivity.
  - unfold needs_resize in E. apply orb_false_elim in E as [E1 E2].
    apply negb_false_iff in E1, E2. apply Z.eqb_eq in E1, E2.
    destruct t as [th tw tc its]. cbn in *. subst. reflexivity.
Qed.

Lemma mapM_process (ts : list (Tensor A)) :
  Forall resizable ts -> mapM process ts = Ok (map processed ts).
Proof.
  induction 1 as [| t ts Ht _ IH]; [reflexivity |].
  cbn [mapM map]. rewrite (process_resizable t Ht). cbn [bind].
  rewrite IH. reflexivity.
Qed.

Lemma normalize_batches_resizable (first : Tensor A) (rest : list (Tensor A)) :
  Forall resizable (first :: rest) ->
  normalize_batches bilinear target_height target_width (first :: rest)
  = Ok (mkTensor target_height target_width channels
          (concat (map (resized_items bilinear target_height target_width)
                       (first :: rest)))).
Proof.
  intros Hall. unfold normalize_batches.
  rewrite (mapM_process _ Hall). cbn [bind map torch_cat].
  replace (forallb (same_shape (processed first)) (map processed rest)) with true.
  - cbn [processed_batch dimH dimW dimC items]. rewrite map_map. reflexivity.
  - symmetry. apply forallb_forall. intros t Hin.
    apply in_map_iff in Hin as (u & <- & _).
    unfold same_shape, processed_batch. cbn. rewrite !Z.eqb_refl. reflexivity.
Qed.

End Normalizer.

Lemma resized_items_length {A : Type} (bilinear : Z -> Z -> Z -> Z -> Image A -> Image A)
  (th tw : Z) (t : Tensor A) :
  length (resized_items bilinear th tw t) = length (items t).
Proof.
  unfold resized_items. destruct (needs_resize th tw t); [apply length_map | reflexivity].
Qed.

Lemma needs_resize_reference {A : Type} (t : Tensor A) :
  needs_resize (dimH t) (dimW t) t = false.
Proof. unfold needs_resize. rewrite !Z.eqb_refl. reflexivity. Qed.

(** Whatever the other batches are, a normalization that succeeds yields the
    shape of the reference batch. *)
Lemma normalize_batches_shape {A : Type}
  (bilinear : Z -> Z -> Z -> Z -> Image A -> Image A)
  (first : Tensor A) (rest : list (Tensor A)) (final : Tensor A) :
  normalize_batches bilinear (dimH first) (dimW first) (first :: rest) = Ok final ->
  dimH final = dimH first /\ dimW final = dimW first /\ dimC final = dimC first.
Proof.
  unfold normalize_batches. cbn [mapM]. unfold resize_to_target at 1.
  rewrite !Z.eqb_refl. cbn [negb orb bind].
  destruct (mapM _ rest) as [ps | e]; cbn [bind]; [| discriminate].
  cbn [torch_cat].
  destruct (forallb (same_shape first) ps); [| discriminate].
  intros H. injection H as <-. cbn. auto.
Qed.

(** ** The grid composer *)

Section GridComposer.

Context {A : Type}.
Variable bilinear : Z -> Z -> Z -> Z -> Image A -> Image A.
Variable zero : A.

Lemma torch_zeros_one (h w c : Z) :
  0 <= h -> 0 <= w -> 0 <= c ->
  torch_zeros zero 1 h w c = Ok (mkTensor h w c [fun _ _ _ => zero]).
Proof.
  intros Hh Hw Hc. unfold torch_zeros.
  replace ((1 <? 0) || (h <? 0) || (w <? 0) || (c <? 0)) with false; [reflexivity |].
  symmetry. rewrite !orb_false_iff, !Z.ltb_ge. lia.
Qed.

(** With at least one image to place, [create_grid] returns a canvas of the
    computed size in which every image fills its own cell and every pixel
    outside the cells is zero. *)
Lemma create_grid_run (columns padding : Z)
  (image_1 image_2 image_3 image_4 image_5 image_6 : option (Tensor A))
  (first : Tensor A) (rest : list (Tensor A)) (final : Tensor A) :
  omap id [image_1; image_2; image_3; image_4; image_5; image_6] = first :: rest ->
  shape_ok first ->
  normalize_batches bilinear (dimH first) (dimW first) (first :: rest) = Ok final ->
  1 <= dimB final ->
  0 <= padding ->
  exists cols rows (canvas : Image A),
    grid_dimensions columns (dimB final) = Ok (cols, rows)
    /\ 0 < cols /\ 0 < rows
    /\ (0 < columns -> cols = columns)
    /\ (columns <= 0 -> (cols - 1) * (cols - 1) < dimB final <= cols * cols)
    /\ (rows - 1) * cols < dimB final <= rows * cols
    /\ create_grid bilinear zero columns padding
         image_1 image_2 image_3 image_4 image_5 image_6
       = Ok (mkTensor (grid_height rows (dimH first) padding)
               (grid_width cols (dimW first) padding) (dimC first) [canvas])
    /\ (forall (j : nat) (img : Image A) y x ch,
          items final !! j = Some img ->
          in_cell cols (dimH first) (dimW first) padding (Z.of_nat j) y x ->
          0 <= ch < dimC first ->
          canvas y x ch =
            img (y - cell_y cols (dimH first) padding (Z.of_nat j))
                (x - cell_x cols (dimW first) padding (Z.of_nat j)) ch)
    /\ (forall y x ch,
          (forall j : nat, (j < length (items final))%nat ->
             ~ in_cell cols (dimH first) (dimW first) padding (Z.of_nat j) y x) ->
          canvas y x ch = zero).
Proof.
  intros Hall (Hh & Hw & Hc) Hnorm Hb Hp.
  destruct (normalize_batches_shape _ _ _ _ Hnorm) as (EH & EW & EC).
  destruct (grid_dimensions_spec columns (dimB final) Hb)
    as (cols & rows & Hdim & Hcols & Hrows & Hfix & Hauto & Hceil).
  destruct (place_images_spec cols rows (dimH first) (dimW first) (dimC first)
              padding Hcols Hh Hw Hp (items final) 0 (fun _ _ _ => zero)
              ltac:(lia) ltac:(unfold dimB in Hceil; lia))
    as (canvas & Hplace & Hin & Hout).
  exists cols, rows, canvas.
  repeat (split; [assumption |]).
  split; [| split].
  - unfold create_grid. rewrite Hall. cbv zeta. rewrite Hnorm. cbn [bind].
    replace (dimB final =? 0) with false by (symmetry; apply Z.eqb_neq; lia).
    rewrite Hdim. cbn [bind].
    rewrite torch_zeros_one by (unfold grid_height, grid_width; nia).
    cbn [bind]. unfold tensor_rows. rewrite EH, EW, EC. exact Hplace.
  - intros j img y x ch Hj Hcell Hch.
    specialize (Hin j img y x ch Hj). rewrite Z.add_0_l in Hin. auto.
  - intros y x ch Hnone. apply Hout. intros j Hj. rewrite Z.add_0_l. auto.
Qed.

End GridComposer.

(** C1: with at least one image and a non-negative padding, [create_grid]
    uses cols = columns when columns > 0 and cols = ceil(sqrt(batch_size))
    when columns = 0, rows = ceil(batch_size / cols) in both cases, and
    returns one canvas of width cols*w + (cols-1)*padding and height
    rows*h + (rows-1)*padding. The ceilings are stated by their defining
    inequalities: (cols-1)^2 < batch_size <= cols^2 and
    (rows-1)*cols < batch_size <= rows*cols. *)
Theorem create_grid_layout {A : Type}
  (bilinear : Z -> Z -> Z -> Z -> Image A -> Image A) (zero : A)
  (columns padding : Z)
  (image_1 image_2 image_3 image_4 image_5 image_6 : option (Tensor A))
  (first : Tensor A) (rest : list (Tensor A)) (final : Tensor A) :
  omap id [image_1; image_2; image_3; image_4; image_5; image_6] = first :: rest ->
  shape_ok first ->
  normalize_batches bilinear (dimH first) (dimW first) (first :: rest) = Ok final ->
  1 <= dimB final ->
  0 <= padding ->
  exists cols rows grid,
    grid_dimensions columns (dimB final) = Ok (cols, rows)
    /\ create_grid bilinear zero columns padding
         image_1 image_2 image_3 image_4 image_5 image_6 = Ok grid
    /\ 0 < cols
    /\ (0 < columns -> cols = columns)
    /\ (columns = 0 -> (cols - 1) * (cols - 1) < dimB final <= cols * cols)
    /\ (rows - 1) * cols < dimB final <= rows * cols
    /\ dimB grid = 1
    /\ dimW grid = cols * dimW first + (cols - 1) * padding
    /\ dimH grid = rows * dimH first + (rows - 1) * padding
    /\ dimC grid = dimC first.
Proof.
  intros Hall Hok Hnorm Hb Hp.
  destruct (create_grid_run bilinear zero columns padding _ _ _ _ _ _ _ _ _
              Hall Hok Hnorm Hb Hp)
    as (cols & rows & canvas & Hdim & Hcols & Hrows & Hfix & Hauto & Hceil
        & Hrun & _).
  exists cols, rows. eexists. split; [exact Hdim |]. split; [exact Hrun |].
  repeat split; try assumption; try reflexivity; lia.
Qed.

Lemma create_grid_layout_witness :
  exists cols rows grid,
    grid_dimensions 2 3 = Ok (cols, rows)
    /\ create_grid nearest 0%Q 2 4
         (Some batch_128) None (Some batch_64) None None None = Ok grid
    /\ 0 < cols
    /\ (0 < 2 -> cols = 2)
    /\ (2 = 0 -> (cols - 1) * (cols - 1) < 3 <= cols * cols)
    /\ (rows - 1) * cols < 3 <= rows * cols
    /\ dimB grid = 1
    /\ dimW grid = cols * 128 + (cols - 1) * 4
    /\ dimH grid = rows * 128 + (rows - 1) * 4
    /\ dimC grid = 3.
Proof.
  apply (create_grid_layout nearest 0%Q 2 4
           (Some batch_128) None (Some batch_64) None None None
           batch_128 [batch_64] batch_128_then_64).
  - reflexivity.
  - unfold shape_ok. simpl. lia.
  - reflexivity.
  - unfold dimB. simpl. lia.
  - lia.
Defined.

(** The example of the specification: ten images in automatic mode make a
    grid of four columns and three rows. *)
Example grid_dimensions_auto_10 : grid_dimensions 0 10 = Ok (4, 3).
Proof. reflexivity. Qed.

(** C2: with at least one image and a non-negative padding, [create_grid]
    copies image idx to the rectangle whose top-left corner is
    (col*(w+padding), row*(h+padding)) with row = idx div cols and
    col = idx mod cols; the rectangle lies inside the canvas, its pixels in
    the returned canvas are those of the image, and the rectangles of two
    distinct indices share no pixel. *)
Theorem create_grid_placement {A : Type}
  (bilinear : Z -> Z -> Z -> Z -> Image A -> Image A) (zero : A)
  (columns padding : Z)
  (image_1 image_2 image_3 image_4 image_5 image_6 : option (Tensor A))
  (first : Tensor A) (rest : list (Tensor A)) (final : Tensor A) :
  omap id [image_1; image_2; image_3; image_4; image_5; image_6] = first :: rest ->
  shape_ok first ->
  normalize_batches bilinear (dimH first) (dimW first) (first :: rest) = Ok final ->
  1 <= dimB final ->
  0 <= padding ->
  exists cols rows (canvas : Image A),
    grid_dimensions columns (dimB final) = Ok (cols, rows)
    /\ create_grid bilinear zero columns padding
         image_1 image_2 image_3 image_4 image_5 image_6
       = Ok (mkTensor (grid_height rows (dimH first) padding)
               (grid_width cols (dimW first) padding) (dimC first) [canvas])
    /\ (forall (idx : nat) (img : Image A),
          items final !! idx = Some img ->
          let row := Z.of_nat idx / cols in
          let col := Z.of_nat idx mod cols in
          let x_start := col * (dimW first + padding) in
          let y_start := row * (dimH first + padding) in
          0 <= x_start
          /\ x_start + dimW first <= grid_width cols (dimW first) padding
          /\ 0 <= y_start
          /\ y_start + dimH first <= grid_height rows (dimH first) padding
          /\ forall dy dx ch,
               0 <= dy < dimH first -> 0 <= dx < dimW first ->
               0 <= ch < dimC first ->
               canvas (y_start + dy) (x_start + dx) ch = img dy dx ch)
    /\ (forall i j y x,
          0 <= i -> 0 <= j -> i <> j ->
          in_cell cols (dimH first) (dimW first) padding i y x ->
          in_cell cols (dimH first) (dimW first) padding j y x -> False).
Proof.
  intros Hall Hok Hnorm Hb Hp.
  destruct (create_grid_run bilinear zero columns padding _ _ _ _ _ _ _ _ _
              Hall Hok Hnorm Hb Hp)
    as (cols & rows & canvas & Hdim & Hcols & Hrows & Hfix & Hauto & Hceil
        & Hrun & Hin & _).
  destruct Hok as (Hh & Hw & Hc).
  exists cols, rows, canvas. split; [exact Hdim |]. split; [exact Hrun |]. split.
  - intros idx img Hidx. cbv zeta.
    pose proof (lookup_lt_Some _ _ _ Hidx) as Hlt.
    destruct (cell_in_canvas cols rows (dimH first) (dimW first) padding
                Hcols Hh Hw Hp (Z.of_nat idx)
                ltac:(unfold dimB in Hceil; lia)) as (Hx0 & Hx1 & Hy0 & Hy1).
    unfold cell_x, cell_y in Hx0, Hx1, Hy0, Hy1.
    repeat (split; [assumption |]).
    intros dy dx ch Hdy Hdx Hch.
    rewrite (Hin idx img _ _ ch Hidx).
    + unfold cell_x, cell_y. f_equal; lia.
    + unfold in_cell, cell_x, cell_y. lia.
    + exact Hch.
  - intros i j y x Hi Hj Hne Hci Hcj.
    eapply (cells_disjoint cols (dimH first) (dimW first) padding)
      with (i := i) (j := j); eassumption.
Qed.

Lemma create_grid_placement_witness :
  exists (canvas : Image Q),
    create_grid nearest 0%Q 2 4
      (Some batch_128) None (Some batch_64) None None None
    = Ok (mkTensor 260 260 3 [canvas])
    /\ canvas 0 0 0 = (1 # 4)%Q
    /\ canvas 5 (132 + 7) 2 = (1 # 2)%Q
    /\ canvas (132 + 127) 127 1 = 1%Q.
Proof.
  destruct (create_grid_placement nearest 0%Q 2 4
              (Some batch_128) None (Some batch_64) None None None
              batch_128 [batch_64] batch_128_then_64)
    as (cols & rows & canvas & Hdim & Hrun & Hin & _).
  - reflexivity.
  - unfold shape_ok. simpl. lia.
  - reflexivity.
  - unfold dimB. simpl. lia.
  - lia.
  - injection Hdim as <- <-.
    exists canvas. split; [exact Hrun |].
    split; [| split].
    + destruct (Hin 0%nat (flat (1 # 4)) eq_refl) as (_ & _ & _ & _ & Hpx).
      apply (Hpx 0 0 0); simpl; lia.
    + destruct (Hin 1%nat (nearest 64 64 128 128 (flat (1 # 2))) eq_refl)
        as (_ & _ & _ & _ & Hpx).
      apply (Hpx 5 7 2); simpl; lia.
    + destruct (Hin 2%nat (nearest 64 64 128 128 (flat 1)) eq_refl)
        as (_ & _ & _ & _ & Hpx).
      apply (Hpx 127 127 1); simpl; lia.
Defined.

(** C5: without any image batch [create_grid] returns one black image of
    512x512x3; when the supplied batches concatenate to an empty batch it
    returns one black image with the height, width and channel count of the
    first batch. Both are returned values: nothing is raised, and no
    division happens before the return. *)
Theorem create_grid_empty_input {A : Type}
  (bilinear : Z -> Z -> Z -> Z -> Image A -> Image A) (zero : A)
  (columns padding : Z) :
  create_grid bilinear zero columns padding None None None None None None
    = Ok (mkTensor 512 512 3 [fun _ _ _ => zero])
  /\ (forall (image_1 image_2 image_3 image_4 image_5 image_6 : option (Tensor A))
        (first : Tensor A) (rest : list (Tensor A)) (final : Tensor A),
        omap id [image_1; image_2; image_3; image_4; image_5; image_6]
          = first :: rest ->
        shape_ok first ->
        normalize_batches bilinear (dimH first) (dimW first) (first :: rest)
          = Ok final ->
        dimB final = 0 ->
        create_grid bilinear zero columns padding
          image_1 image_2 image_3 image_4 image_5 image_6
        = Ok (mkTensor (dimH first) (dimW first) (dimC first) [fun _ _ _ => zero])).
Proof.
  split; [reflexivity |].
  intros i1 i2 i3 i4 i5 i6 first rest final Hall (Hh & Hw & Hc) Hnorm Hb.
  unfold create_grid. rewrite Hall. cbv zeta. rewrite Hnorm. cbn [bind].
  rewrite Hb. cbn [Z.eqb].
  apply torch_zeros_one; assumption.
Qed.

Lemma create_grid_empty_input_witness :
  create_grid nearest 0%Q 0 2 None (Some empty_64) None None (Some empty_64) None
  = Ok (mkTensor 64 64 3 [fun _ _ _ => 0%Q]).
Proof.
  destruct (create_grid_empty_input nearest 0%Q 0 2) as [_ Hempty].
  apply (Hempty None (Some empty_64) None None (Some empty_64) None
           empty_64 [empty_64] empty_64).
  - reflexivity.
  - unfold shape_ok. simpl. lia.
  - reflexivity.
  - reflexivity.
Defined.

(** C8, as stated, fails: batches that do not share the channel count of
    the reference cannot be concatenated ([torch.cat] raises), and a batch
    without pixels that needs resizing cannot be interpolated. *)
Lemma normalize_batches_can_raise :
  normalize_batches nearest 128 128 [batch_128; batch_128_rgba] = Raise RuntimeError
  /\ normalize_batches nearest 128 128 [batch_128; batch_flat] = Raise RuntimeError
  /\ create_grid nearest 0%Q 2 2
       (Some batch_128) (Some batch_128_rgba) None None None None
     = Raise RuntimeError
  /\ ~ (forall first rest,
          is_Ok (normalize_batches nearest (dimH first) (dimW first) (first :: rest))).
Proof.
  split; [reflexivity | split; [reflexivity | split; [reflexivity |]]].
  intros H. exact (H batch_128 [batch_128_rgba]).
Qed.

(** C8 (amended): for a non-empty list of batches that share the channel
    count of the first one, and whose members that differ from it in height
    or width have positive height, width and channel count (the reference
    height and width being positive as well), the normalizer resizes exactly
    the batches that differ in height or width, to the reference height and
    width, keeps the channel count and the number of images of every batch,
    and concatenates the batches in their order; a 64x64 batch against a
    128x128 reference yields 128x128 images in the same number. *)
Theorem normalize_batches_resizes_and_concatenates {A : Type}
  (bilinear : Z -> Z -> Z -> Z -> Image A -> Image A)
  (first : Tensor A) (rest : list (Tensor A)) :
  Forall (resizable (dimH first) (dimW first) (dimC first)) rest ->
  exists final,
    normalize_batches bilinear (dimH first) (dimW first) (first :: rest) = Ok final
    /\ dimH final = dimH first /\ dimW final = dimW first
    /\ dimC final = dimC first
    /\ items final =
         concat (map (resized_items bilinear (dimH first) (dimW first)) (first :: rest))
    /\ (forall t,
          needs_resize (dimH first) (dimW first) t = false ->
          resized_items bilinear (dimH first) (dimW first) t = items t)
    /\ (forall t,
          needs_resize (dimH first) (dimW first) t = true ->
          resized_items bilinear (dimH first) (dimW first) t
          = map (bilinear (dimH t) (dimW t) (dimH first) (dimW first)) (items t))
    /\ (forall t : Tensor A,
          needs_resize (dimH first) (dimW first) t = true <->
          dimH t <> dimH first \/ dimW t <> dimW first)
    /\ (forall t,
          length (resized_items bilinear (dimH first) (dimW first) t)
          = length (items t))
    /\ dimB final = fold_right Z.add 0 (map dimB (first :: rest)).
Proof.
  intros Hrest.
  assert (Hall : Forall (resizable (dimH first) (dimW first) (dimC first))
                   (first :: rest)).
  { constructor; [| exact Hrest]. split; [reflexivity |].
    rewrite needs_resize_reference. discriminate. }
  eexists. split; [apply (normalize_batches_resizable _ _ _ _ _ _ Hall) |].
  cbn [dimH dimW dimC items].
  repeat split.
  - intros t Ht. unfold resized_items. rewrite Ht. reflexivity.
  - intros t Ht. unfold resized_items. rewrite Ht. reflexivity.
  - unfold needs_resize. rewrite orb_true_iff, !negb_true_iff, !Z.eqb_neq. tauto.
  - unfold needs_resize. rewrite orb_true_iff, !negb_true_iff, !Z.eqb_neq. tauto.
  - apply resized_items_length.
  - unfold dimB. cbn [items].
    generalize (first :: rest) as ts. intros ts.
    induction ts as [| t ts IH]; [reflexivity |].
    cbn [map concat fold_right]. rewrite length_app, resized_items_length.
    rewrite Nat2Z.inj_add, IH. reflexivity.
Qed.

Lemma normalize_batches_resizes_and_concatenates_witness :
  exists final,
    normalize_batches nearest 128 128 [batch_128; batch_64] = Ok final
    /\ dimH final = 128 /\ dimW final = 128 /\ dimC final = 3
    /\ items final =
         [flat (1 # 4); nearest 64 64 128 128 (flat (1 # 2));
          nearest 64 64 128 128 (flat 1)]
    /\ dimB final = 1 + (2 + 0).
Proof.
  destruct (normalize_batches_resizes_and_concatenates nearest batch_128 [batch_64])
    as (final & Hn & H1 & H2 & H3 & H4 & _ & _ & _ & _ & H5).
  - constructor; [| constructor].
    split; [reflexivity |]. intros _. simpl. lia.
  - exists final. repeat split; assumption.
Defined.

(** ** The label renderer *)

Lemma mapM_Ok_Forall2 {A B : Type} (f : A -> result B) (l : list A) (rs : list B) :
  mapM f l = Ok rs -> Forall2 (fun a b => f a = Ok b) l rs.
Proof.
  revert rs. induction l as [| a l IH]; intros rs H; cbn [mapM] in H.
  - injection H as <-. constructor.
  - destruct (f a) as [b |] eqn:Ea; cbn [bind] in H; [| discriminate].
    destruct (mapM f l) as [bs |]; cbn [bind] in H; [| discriminate].
    injection H as <-. constructor; [exact Ea | apply IH; reflexivity].
Qed.

Lemma mapM_all_Ok {A B : Type} (f : A -> result B) (l : list A) :
  Forall (fun a => is_Ok (f a)) l -> exists rs, mapM f l = Ok rs.
Proof.
  induction 1 as [| a l Ha _ [rs IH]]; [exists []; reflexivity |].
  cbn [mapM]. destruct (f a) as [b |]; [| destruct Ha].
  cbn [bind]. rewrite IH. cbn [bind]. eauto.
Qed.

Lemma byte_val_range (b : Byte.byte) : 0 <= byte_val b <= 255.
Proof.
  unfold byte_val. pose proof (Byte.to_N_bounded b). lia.
Qed.

Lemma pil_to_tensor_range (image : PILImage) (y x c : Z) :
  (0 <= t3data (pil_to_tensor image) y x c <= 1)%Q.
Proof.
  unfold pil_to_tensor. cbn [t3data].
  pose proof (byte_val_range (im_data image x y c)) as Hb.
  unfold Qle. cbn [Qnum Qden]. lia.
Qed.

Section LabelImage.

Context {Font : Type}.
Variable d : DrawLib Font.
Variable st : LabelStyle.
Variable font : Font.
Variables text_color bg_color stroke_color : string.

(** One pass of the loop body returns the conversion of an RGB image that has
    the width and height of the input image. *)
Lemma label_image_result (image_i r : Tensor3 Q) :
  label_image d st font text_color bg_color stroke_color image_i = Ok r ->
  exists im : PILImage,
    r = pil_to_tensor im /\ im_mode im = ModeRGB
    /\ im_width im = t3W image_i /\ im_height im = t3H image_i.
Proof.
  unfold label_image, tensor_to_pil.
  destruct (fromarray_mode (t3C image_i)) as [m |]; cbn [bind]; [| discriminate].
  destruct (get_text_bbox d (text st) font) as [[[[l t] rr] b] |];
    cbn [bind]; [| discriminate].
  destruct (calculate_position _ _ _ _ _ _) as [x y].
  destruct (hex_to_rgba bg_color _) as [fill |]; cbn [bind]; [| discriminate].
  unfold repaint.
  destruct (rounded_rectangle d _ _ _ _) as [px1 |]; cbn [bind]; [| discriminate].
  unfold Image_alpha_composite.
  cbn [convert_RGBA Image_new_RGBA im_mode im_width im_height same_mode andb].
  rewrite !Z.eqb_refl. cbn [andb bind].
  destruct (hex_to_rgba text_color 1) as [tf |]; cbn [bind]; [| discriminate].
  destruct (hex_to_rgba stroke_color 1) as [sf |]; cbn [bind]; [| discriminate].
  destruct (multiline_text d _ _ _ _ _ _ _ _) as [px2 |]; cbn [bind];
    [| discriminate].
  intros H. injection H as <-.
  eexists. split; [reflexivity |]. cbn. auto.
Qed.

End LabelImage.

Lemma render_one_result {Font : Type} (env : OsEnv) (fl : FontLib Font)
  (d : DrawLib Font) (st : LabelStyle) (image_i r : Tensor3 Q) :
  render_one env fl d st image_i = Ok r ->
  t3H r = t3H image_i /\ t3W r = t3W image_i /\ t3C r = 3
  /\ forall y x c, (0 <= t3data r y x c <= 1)%Q.
Proof.
  unfold render_one.
  destruct (load_font env fl _ _) as [font |]; cbn [bind]; [| discriminate].
  destruct (scheme_colors st) as [[tc bc] sc].
  intros H. apply label_image_result in H as (im & -> & Hm & Hw & Hh).
  unfold pil_to_tensor at 1 2 3. cbn [t3H t3W t3C]. rewrite Hm.
  repeat split; try assumption; try apply pil_to_tensor_range.
Qed.

Lemma add_text_label_unfold {Font : Type} (env : OsEnv) (fl : FontLib Font)
  (d : DrawLib Font) (image : ImageArg) (st : LabelStyle) :
  add_text_label env fl d image st =
  (output_images <-
     mapM (render_one env fl d st)
       (tensor_rows match image with Arg3 t => unsqueeze0 t | Arg4 t => t end) ;;
   torch_stack output_images).
Proof.
  unfold add_text_label, render_one, load_font, scheme_colors.
  destruct (load_font_from fl _ _) as [font |] eqn:Ef.
  - cbn [bind].
    destruct (String.eqb (color_scheme st) "white_on_black"); reflexivity.
  - exfalso. pose proof (load_font_from_total fl (font_size_arg st)
                           (get_font_paths env (font_family st))) as Hok.
    rewrite Ef in Hok. exact Hok.
Qed.

Lemma torch_stack_same_shape (rs : list (Tensor3 Q)) (h w c : Z) :
  rs <> [] ->
  Forall (fun r => t3H r = h /\ t3W r = w /\ t3C r = c) rs ->
  torch_stack rs = Ok (mkTensor h w c (map t3data rs)).
Proof.
  intros Hne Hall. destruct rs as [| r0 rs]; [contradiction |].
  apply Forall_cons_1 in Hall as [(H0 & W0 & C0) Hall].
  unfold torch_stack.
  replace (forallb (same_shape3 r0) rs) with true.
  - rewrite H0, W0, C0. reflexivity.
  - symmetry. apply forallb_forall. intros r Hin.
    rewrite Forall_forall in Hall.
    apply list_elem_of_In in Hin. destruct (Hall r Hin) as (Hh & Hw & Hc).
    unfold same_shape3. rewrite H0, W0, C0, Hh, Hw, Hc, !Z.eqb_refl. reflexivity.
Qed.

Lemma mapM_rows_lookup {A B C : Type} (f : B -> result C) (g : A -> B)
  (l : list A) (rs : list C) :
  mapM f (map g l) = Ok rs ->
  length rs = length l
  /\ (forall (i : nat) (x : A), l !! i = Some x ->
        exists r, f (g x) = Ok r /\ rs !! i = Some r)
  /\ (forall r, In r rs -> exists x, f (g x) = Ok r).
Proof.
  revert rs. induction l as [| a l IH]; intros rs H; cbn [map mapM] in H.
  - injection H as <-. repeat split.
    + intros i x Hx. rewrite lookup_nil in Hx. discriminate Hx.
    + intros r [].
  - destruct (f (g a)) as [b |] eqn:Ea; cbn [bind] in H; [| discriminate].
    destruct (mapM f (map g l)) as [bs |]; cbn [bind] in H; [| discriminate].
    injection H as <-. destruct (IH bs eq_refl) as (Hlen & Hlook & Hin).
    repeat split.
    + cbn [length]. rewrite Hlen. reflexivity.
    + intros [| i] x Hx; cbn in Hx.
      * injection Hx as <-. exists b. split; [exact Ea | reflexivity].
      * apply (Hlook i x Hx).
    + intros r [<- | Hr]; [eauto | apply (Hin r Hr)].
Qed.

(** C9, as stated, fails: on a 4D batch without images the loop body never
    runs and [torch.stack] raises on the empty list. *)
Lemma add_text_label_raises_on_empty_batch :
  add_text_label linux_env only_bundled_arial block_painters (Arg4 empty_64)
    sample_style = Raise RuntimeError
  /\ ~ (forall (image : Tensor Q) (st : LabelStyle),
          exists out,
            add_text_label linux_env only_bundled_arial block_painters
              (Arg4 image) st = Ok out
            /\ dimB out = dimB image).
Proof.
  split; [reflexivity |].
  intros H. destruct (H empty_64 sample_style) as (out & Hout & _).
  vm_compute in Hout. discriminate Hout.
Qed.

(** C9 (amended): for a 4D batch with at least one image, on whose images
    the conversion to Pillow, the text measurement and the painters do not
    raise, and every style, [add_text_label] returns a batch of the same
    size, whose image i is the rendering of image i of the input alone, with
    the height and width of the input images. *)
Theorem add_text_label_preserves_batch {Font : Type} (env : OsEnv)
  (fl : FontLib Font) (d : DrawLib Font) (image : Tensor Q) (st : LabelStyle) :
  items image <> [] ->
  Forall (fun image_i => is_Ok (render_one env fl d st image_i))
         (tensor_rows image) ->
  exists out,
    add_text_label env fl d (Arg4 image) st = Ok out
    /\ dimB out = dimB image
    /\ dimH out = dimH image /\ dimW out = dimW image
    /\ forall (i : nat) (img : Image Q),
         items image !! i = Some img ->
         exists r,
           render_one env fl d st
             (mkTensor3 (dimH image) (dimW image) (dimC image) img) = Ok r
           /\ items out !! i = Some (t3data r)
           /\ t3H r = dimH image /\ t3W r = dimW image.
Proof.
  intros Hne Hall.
  destruct (mapM_all_Ok _ _ Hall) as (rs & Hrs).
  destruct (mapM_rows_lookup _ _ _ _ Hrs) as (Hlen & Hlook & Hin).
  assert (Hshape : Forall (fun r => t3H r = dimH image /\ t3W r = dimW image
                                    /\ t3C r = 3) rs).
  { apply Forall_forall. intros r Hr. apply list_elem_of_In in Hr.
    destruct (Hin r Hr) as (x & Hx).
    apply render_one_result in Hx as (Hh & Hw & Hc & _). auto. }
  assert (Hrs_ne : rs <> []).
  { intros ->. destruct (items image); [contradiction | discriminate Hlen]. }
  exists (mkTensor (dimH image) (dimW image) 3 (map t3data rs)).
  split; [| split; [| split; [| split]]].
  - rewrite add_text_label_unfold. rewrite Hrs. cbn [bind].
    apply torch_stack_same_shape; assumption.
  - unfold dimB. cbn [items]. rewrite length_map, Hlen. reflexivity.
  - reflexivity.
  - reflexivity.
  - intros i img Hi. destruct (Hlook i img Hi) as (r & Hr & Hri).
    exists r. split; [exact Hr |]. split.
    + cbn [items]. change (map t3data rs) with (t3data <$> rs).
      rewrite list_lookup_fmap, Hri. reflexivity.
    + apply render_one_result in Hr as (Hh & Hw & _). auto.
Qed.

Lemma add_text_label_preserves_batch_witness :
  exists out,
    add_text_label linux_env only_bundled_arial block_painters
      (Arg4 label_batch) sample_style = Ok out
    /\ dimB out = 3 /\ dimH out = 40 /\ dimW out = 60.
Proof.
  destruct (add_text_label_preserves_batch linux_env only_bundled_arial
              block_painters label_batch sample_style)
    as (out & Hout & Hb & Hh & Hw & _).
  - discriminate.
  - repeat constructor.
  - exists out. repeat split; assumption.
Defined.

(** ** Sample range *)








(** ** When one image renders *)

Lemma scheme_colors_parse (st : LabelStyle) (alpha : Q) :
  let '(text_color, bg_color, stroke_color) := scheme_colors st in
  is_Ok (hex_to_rgba text_color alpha)
  /\ is_Ok (hex_to_rgba bg_color alpha)
  /\ is_Ok (hex_to_rgba stroke_color alpha).
Proof.
  assert (Hw : hex_to_rgba "#FFFFFF" alpha = Ok (255, 255, 255, floor_alpha alpha)).
  { apply (hex_to_rgba_six "#FFFFFF" alpha "F" "F" "F" "F" "F" "F"
             15 15 15 15 15 15)%char; reflexivity. }
  assert (Hk : hex_to_rgba "#000000" alpha = Ok (0, 0, 0, floor_alpha alpha)).
  { apply (hex_to_rgba_six "#000000" alpha "0" "0" "0" "0" "0" "0"
             0 0 0 0 0 0)%char; reflexivity. }
  unfold scheme_colors.
  destruct (String.eqb (color_scheme st) "white_on_black");
    rewrite Hw, Hk; repeat split.
Qed.

(** The loop body does not raise on an image of two to four channels when
    the measurement and the two painters do not: the colour strings of both
    schemes parse, and the overlay always fits the image. *)
Lemma render_one_succeeds {Font : Type} (env : OsEnv) (fl : FontLib Font)
  (d : DrawLib Font) (st : LabelStyle) (image_i : Tensor3 Q) :
  2 <= t3C image_i <= 4 ->
  (forall font, is_Ok (get_text_bbox d (text st) font)) ->
  (forall im box radius fill, is_Ok (rounded_rectangle d im box radius fill)) ->
  (forall im xy txt font fill align width stroke,
      is_Ok (multiline_text d im xy txt font fill align width stroke)) ->
  is_Ok (render_one env fl d st image_i).
Proof.
  intros Hc Hbbox Hrect Htext. unfold render_one.
  pose proof (load_font_from_total fl (font_size_arg st)
                (get_font_paths env (font_family st))) as Hfont.
  unfold load_font.
  destruct (load_font_from fl _ _) as [font |]; [| destruct Hfont].
  cbn [bind].
  pose proof (scheme_colors_parse st (inject_Z (background_opacity st) / 255)) as Hbg.
  pose proof (scheme_colors_parse st 1) as Hfg.
  destruct (scheme_colors st) as [[tc bc] sc].
  destruct Hbg as (_ & Hbg & _). destruct Hfg as (Htc & _ & Hsc).
  unfold label_image, tensor_to_pil.
  assert (Hm : exists m, fromarray_mode (t3C image_i) = Ok m).
  { unfold fromarray_mode.
    destruct (t3C image_i =? 2) eqn:E2; [eauto |].
    destruct (t3C image_i =? 3) eqn:E3; [eauto |].
    destruct (t3C image_i =? 4) eqn:E4; [eauto |].
    apply Z.eqb_neq in E2, E3, E4. lia. }
  destruct Hm as [m ->]. cbn [bind].
  specialize (Hbbox font).
  destruct (get_text_bbox d (text st) font) as [[[[l t] rr] b] |];
    [| destruct Hbbox].
  cbn [bind].
  destruct (calculate_position _ _ _ _ _ _) as [x y].
  destruct (hex_to_rgba bc _) as [fill |]; [| destruct Hbg]. cbn [bind].
  unfold repaint.
  match goal with
  | |- context [rounded_rectangle d ?im ?box ?r ?f] =>
      pose proof (Hrect im box r f) as Hr;
      destruct (rounded_rectangle d im box r f) as [px1 |]; [| destruct Hr]
  end.
  cbn [bind]. unfold Image_alpha_composite.
  cbn [convert_RGBA Image_new_RGBA im_mode im_width im_height same_mode andb].
  rewrite !Z.eqb_refl. cbn [andb bind].
  destruct (hex_to_rgba tc 1) as [tf |]; [| destruct Htc]. cbn [bind].
  destruct (hex_to_rgba sc 1) as [sf |]; [| destruct Hsc]. cbn [bind].
  match goal with
  | |- context [multiline_text d ?im ?xy ?tx ?fn ?fl' ?al ?sw ?st'] =>
      pose proof (Htext im xy tx fn fl' al sw st') as Ht;
      destruct (multiline_text d im xy tx fn fl' al sw st') as [px2 |];
      [| destruct Ht]
  end.
  exact I.
Qed.

(** ** Candidate paths *)

(** The candidates for Arial on the sample Linux host: the bundled names,
    each bare and then under the local fonts directory, the system paths, the
    user font directories. *)
Example get_font_paths_arial_linux :
  get_font_paths linux_env "Arial" =
  ["arial.ttf"; "/opt/nodes/fonts/arial.ttf";
   "Arial.ttf"; "/opt/nodes/fonts/Arial.ttf";
   "C:\Windows\Fonts\arial.ttf"; "/Library/Fonts/Arial.ttf";
   "/usr/share/fonts/truetype/msttcorefonts/Arial.ttf";
   "/home/u/.fonts/DejaVuSansMono.ttf";
   "/home/u/.local/share/fonts/DejaVuSansMono.ttf"].
Proof. reflexivity. Qed.

(** An unknown family has no candidate on a host that is not Linux. *)
Example get_font_paths_unknown_darwin :
  get_font_paths darwin_env "Comic Sans" = [].
Proof. reflexivity. Qed.

(** * Further properties of the grid composer *)

(** In automatic mode the grid is roughly square, as the comment of line 104
    says: there are as many rows as columns, or one row less. *)
Theorem grid_dimensions_auto_roughly_square (columns batch_size : Z) :
  1 <= batch_size -> columns <= 0 ->
  exists cols rows,
    grid_dimensions columns batch_size = Ok (cols, rows)
    /\ cols - 1 <= rows <= cols.
Proof.
  intros Hb Hc.
  destruct (grid_dimensions_spec columns batch_size Hb)
    as (cols & rows & Hdim & Hcols & Hrows & _ & Hauto & Hceil).
  specialize (Hauto Hc).
  exists cols, rows. split; [exact Hdim |]. split.
  - destruct (Z_lt_le_dec rows (cols - 1)) as [Hlt | Hge]; [exfalso; nia | exact Hge].
  - destruct (Z_lt_le_dec cols rows) as [Hlt | Hge]; [exfalso; nia | exact Hge].
Qed.

Lemma grid_dimensions_auto_roughly_square_witness :
  exists cols rows,
    grid_dimensions 0 7 = Ok (cols, rows) /\ cols - 1 <= rows <= cols.
Proof.
  apply (grid_dimensions_auto_roughly_square 0 7); lia.
Defined.

(** Everything [create_grid] does not cover with an image stays black: the
    padding between the cells, and the cells after the last image. *)
Theorem create_grid_background_is_black {A : Type}
  (bilinear : Z -> Z -> Z -> Z -> Image A -> Image A) (zero : A)
  (columns padding : Z)
  (image_1 image_2 image_3 image_4 image_5 image_6 : option (Tensor A))
  (first : Tensor A) (rest : list (Tensor A)) (final : Tensor A) :
  omap id [image_1; image_2; image_3; image_4; image_5; image_6] = first :: rest ->
  shape_ok first ->
  normalize_batches bilinear (dimH first) (dimW first) (first :: rest) = Ok final ->
  1 <= dimB final ->
  0 <= padding ->
  exists cols rows (canvas : Image A),
    grid_dimensions columns (dimB final) = Ok (cols, rows)
    /\ create_grid bilinear zero columns padding
         image_1 image_2 image_3 image_4 image_5 image_6
       = Ok (mkTensor (grid_height rows (dimH first) padding)
               (grid_width cols (dimW first) padding) (dimC first) [canvas])
    /\ (forall y x ch,
          (forall idx, 0 <= idx < dimB final ->
             ~ in_cell cols (dimH first) (dimW first) padding idx y x) ->
          canvas y x ch = zero)
    /\ (forall idx y x ch,
          dimB final <= idx ->
          in_cell cols (dimH first) (dimW first) padding idx y x ->
          canvas y x ch = zero).
Proof.
  intros Hall Hok Hnorm Hb Hp.
  destruct (create_grid_run bilinear zero columns padding _ _ _ _ _ _ _ _ _
              Hall Hok Hnorm Hb Hp)
    as (cols & rows & canvas & Hdim & Hcols & Hrows & _ & _ & _ & Hrun & _ & Hout).
  destruct Hok as (Hh & Hw & Hc).
  assert (Hbg : forall y x ch,
             (forall idx, 0 <= idx < dimB final ->
                ~ in_cell cols (dimH first) (dimW first) padding idx y x) ->
             canvas y x ch = zero).
  { intros y x ch Hnone. apply Hout. intros j Hj. apply Hnone.
    unfold dimB. lia. }
  exists cols, rows, canvas. repeat (split; [assumption |]).
  intros idx y x ch Hidx Hcell. apply Hbg. intros j Hj Hcj.
  eapply (cells_disjoint cols (dimH first) (dimW first) padding)
    with (i := idx) (j := j); try eassumption; lia.
Qed.

Lemma create_grid_background_is_black_witness :
  exists (canvas : Image Q),
    create_grid nearest 0%Q 2 4
      (Some batch_128) None (Some batch_64) None None None
    = Ok (mkTensor 260 260 3 [canvas])
    /\ canvas 130 50 0 = 0%Q
    /\ canvas 200 200 1 = 0%Q.
Proof.
  destruct (create_grid_background_is_black nearest 0%Q 2 4
              (Some batch_128) None (Some batch_64) None None None
              batch_128 [batch_64] batch_128_then_64)
    as (cols & rows & canvas & Hdim & Hrun & Hgap & Hfree).
  - reflexivity.
  - unfold shape_ok. simpl. lia.
  - reflexivity.
  - unfold dimB. simpl. lia.
  - lia.
  - injection Hdim as <- <-.
    exists canvas. split; [exact Hrun |]. split.
    + apply Hgap. intros idx Hidx [Hy Hx].
      unfold dimB in Hidx. cbn in Hidx.
      assert (Hcases : idx = 0 \/ idx = 1 \/ idx = 2) by lia.
      destruct Hcases as [-> | [-> | ->]]; vm_compute in Hy; intuition congruence.
    + apply (Hfree 3); [unfold dimB; simpl; lia |].
      split; vm_compute; intuition congruence.
Defined.

(** ** Shape of what [create_grid] returns *)

Section GridShape.

Context {A : Type}.

Lemma grid_setitem_keeps_shape (grid grid' : Tensor A)
  (y_start y_end x_start x_end : Z) (src : Tensor3 A) :
  grid_setitem grid y_start y_end x_start x_end src = Ok grid' ->
  dimH grid' = dimH grid /\ dimW grid' = dimW grid /\ dimC grid' = dimC grid
  /\ length (items grid') = length (items grid).
Proof.
  unfold grid_setitem. destruct (items grid) as [| canvas others] eqn:E;
    [discriminate |].
  cbv zeta.
  match goal with |- context [if ?b then _ else _] => destruct b end;
    [| discriminate].
  intros H. injection H as <-. cbn. auto.
Qed.

Lemma place_images_keeps_shape (images : list (Tensor3 A)) :
  forall (grid grid' : Tensor A) (cols h w padding idx : Z),
    place_images grid cols h w padding idx images = Ok grid' ->
    dimH grid' = dimH grid /\ dimW grid' = dimW grid /\ dimC grid' = dimC grid
    /\ length (items grid') = length (items grid).
Proof.
  induction images as [| img images IH]; intros grid grid' cols h w padding idx H.
  - injection H as <-. auto.
  - cbn [place_images] in H.
    destruct (py_floordiv idx cols) as [row |]; cbn [bind] in H; [| discriminate].
    destruct (py_mod idx cols) as [col |]; cbn [bind] in H; [| discriminate].
    destruct (grid_setitem grid _ _ _ _ img) as [g1 |] eqn:Eset;
      cbn [bind] in H; [| discriminate].
    apply grid_setitem_keeps_shape in Eset as (h1 & h2 & h3 & h4).
    apply IH in H as (k1 & k2 & k3 & k4).
    repeat split; congruence.
Qed.

Lemma torch_zeros_shape (zero : A) (b h w c : Z) (t : Tensor A) :
  torch_zeros zero b h w c = Ok t ->
  dimH t = h /\ dimW t = w /\ dimC t = c /\ dimB t = b
  /\ 0 <= h /\ 0 <= w /\ 0 <= c.
Proof.
  unfold torch_zeros.
  destruct ((b <? 0) || (h <? 0) || (w <? 0) || (c <? 0)) eqn:E; [discriminate |].
  rewrite !orb_false_iff, !Z.ltb_ge in E.
  intros H. injection H as <-. unfold dimB. cbn [dimH dimW dimC items].
  rewrite length_replicate. repeat split; lia.
Qed.

End GridShape.

(** Whatever the arguments are, a grid that [create_grid] returns is one
    image: batch dimension 1, no negative dimension, three channels when no
    batch was supplied and the channel count of the first batch otherwise. *)
Theorem create_grid_returns_one_image {A : Type}
  (bilinear : Z -> Z -> Z -> Z -> Image A -> Image A) (zero : A)
  (columns padding : Z)
  (image_1 image_2 image_3 image_4 image_5 image_6 : option (Tensor A))
  (grid : Tensor A) :
  create_grid bilinear zero columns padding
    image_1 image_2 image_3 image_4 image_5 image_6 = Ok grid ->
  dimB grid = 1 /\ 0 <= dimH grid /\ 0 <= dimW grid
  /\ dimC grid =
       match omap id [image_1; image_2; image_3; image_4; image_5; image_6] with
       | [] => 3
       | first :: _ => dimC first
       end.
Proof.
  unfold create_grid.
  destruct (omap id [image_1; image_2; image_3; image_4; image_5; image_6])
    as [| first rest].
  - intros H. apply torch_zeros_shape in H. intuition lia.
  - cbv zeta.
    destruct (normalize_batches _ _ _ _) as [final |]; cbn [bind]; [| discriminate].
    destruct (dimB final =? 0).
    + intros H. apply torch_zeros_shape in H. intuition lia.
    + destruct (grid_dimensions columns (dimB final)) as [[cols rows] |];
        cbn [bind]; [| discriminate].
      destruct (torch_zeros zero 1 _ _ _) as [g0 |] eqn:Ez; cbn [bind];
        [| discriminate].
      apply torch_zeros_shape in Ez as (z1 & z2 & z3 & z4 & z5 & z6 & z7).
      intros H. apply place_images_keeps_shape in H as (k1 & k2 & k3 & k4).
      unfold dimB in *. repeat split; lia.
Qed.

Lemma create_grid_returns_one_image_witness :
  exists grid,
    create_grid nearest 0%Q 5 (-3)
      (Some batch_64) None None None None None = Ok grid
    /\ dimB grid = 1 /\ 0 <= dimH grid /\ 0 <= dimW grid /\ dimC grid = 3.
Proof.
  eexists. split; [reflexivity |].
  apply (create_grid_returns_one_image nearest 0%Q 5 (-3)
           (Some batch_64) None None None None None).
  reflexivity.
Defined.

(** ** Batches that already have the reference shape *)

Lemma normalize_batches_same_shape {A : Type}
  (bilinear : Z -> Z -> Z -> Z -> Image A -> Image A)
  (first : Tensor A) (rest : list (Tensor A)) :
  Forall (fun t => same_shape first t = true) rest ->
  normalize_batches bilinear (dimH first) (dimW first) (first :: rest)
  = Ok (mkTensor (dimH first) (dimW first) (dimC first)
          (concat (map items (first :: rest)))).
Proof.
  intros Hsame.
  assert (Hall : Forall (fun t => same_shape first t = true) (first :: rest)).
  { constructor; [| exact Hsame]. unfold same_shape. rewrite !Z.eqb_refl. reflexivity. }
  clear Hsame.
  assert (Hno : Forall (fun t => needs_resize (dimH first) (dimW first) t = false
                                 /\ dimC t = dimC first) (first :: rest)).
  { eapply Forall_impl; [exact Hall |]. intros t Ht. cbv beta in Ht.
    unfold same_shape in Ht. rewrite !andb_true_iff, !Z.eqb_eq in Ht.
    destruct Ht as [[Hh Hw] Hc]. unfold needs_resize.
    rewrite <- Hh, <- Hw, !Z.eqb_refl. auto. }
  rewrite (normalize_batches_resizable bilinear (dimH first) (dimW first) (dimC first)).
  - do 3 f_equal. apply map_ext_in. intros t Ht.
    rewrite Forall_forall in Hno. apply list_elem_of_In in Ht.
    destruct (Hno t Ht) as [Hn _].
    unfold resized_items. rewrite Hn. reflexivity.
  - eapply Forall_impl; [exact Hno |]. intros t [Hn Hc]. split; [exact Hc |].
    rewrite Hn. discriminate.
Qed.

(** When every supplied batch already has the shape of the first one and
    the padding is not negative, [create_grid] does not raise and does no
    resampling: whatever the interpolation kernel, the canvas holds the
    original pixels of image idx of the concatenated batches in cell idx. *)
Theorem create_grid_same_shape_batches {A : Type}
  (bilinear : Z -> Z -> Z -> Z -> Image A -> Image A) (zero : A)
  (columns padding : Z)
  (image_1 image_2 image_3 image_4 image_5 image_6 : option (Tensor A))
  (first : Tensor A) (rest : list (Tensor A)) :
  omap id [image_1; image_2; image_3; image_4; image_5; image_6] = first :: rest ->
  shape_ok first ->
  Forall (fun t => same_shape first t = true) rest ->
  0 <= padding ->
  exists grid,
    create_grid bilinear zero columns padding
      image_1 image_2 image_3 image_4 image_5 image_6 = Ok grid
    /\ forall (idx : nat) (img : Image A),
         concat (map items (first :: rest)) !! idx = Some img ->
         exists cols rows (canvas : Image A),
           grid_dimensions columns
             (Z.of_nat (length (concat (map items (first :: rest)))))
             = Ok (cols, rows)
           /\ items grid = [canvas]
           /\ forall dy dx ch,
                0 <= dy < dimH first -> 0 <= dx < dimW first ->
                0 <= ch < dimC first ->
                canvas (Z.of_nat idx / cols * (dimH first + padding) + dy)
                       (Z.of_nat idx mod cols * (dimW first + padding) + dx) ch
                = img dy dx ch.
Proof.
  intros Hall Hok Hsame Hp.
  pose proof (normalize_batches_same_shape bilinear first rest Hsame) as Hnorm.
  set (final := mkTensor (dimH first) (dimW first) (dimC first)
                  (concat (map items (first :: rest)))) in *.
  destruct (Z.eq_dec (dimB final) 0) as [E0 | N0].
  - exists (mkTensor (dimH first) (dimW first) (dimC first) [fun _ _ _ => zero]).
    split.
    + unfold create_grid. rewrite Hall. cbv zeta. rewrite Hnorm. cbn [bind].
      rewrite E0. cbn [Z.eqb]. destruct Hok as (h1 & h2 & h3).
      apply torch_zeros_one; assumption.
    + intros idx img Hidx. apply lookup_lt_Some in Hidx.
      unfold dimB, final in E0. cbn [items] in E0. lia.
  - assert (Hb : 1 <= dimB final) by (unfold dimB in *; lia).
    destruct (create_grid_run bilinear zero columns padding _ _ _ _ _ _ _ _ _
                Hall Hok Hnorm Hb Hp)
      as (cols & rows & canvas & Hdim & Hcols & Hrows & _ & _ & Hceil
          & Hrun & Hin & _).
    eexists. split; [exact Hrun |].
    intros idx img Hidx. exists cols, rows, canvas.
    split; [exact Hdim |]. split; [reflexivity |].
    intros dy dx ch Hdy Hdx Hch.
    rewrite (Hin idx img _ _ ch Hidx).
    + unfold cell_x, cell_y. f_equal; lia.
    + unfold in_cell, cell_x, cell_y. lia.
    + exact Hch.
Qed.

Lemma create_grid_same_shape_batches_witness :
  exists grid,
    create_grid nearest 0%Q 0 1
      (Some batch_64) None (Some batch_64) None None None = Ok grid
    /\ exists canvas : Image Q,
         items grid = [canvas] /\ canvas (65 + 3) (65 + 9) 2 = 1%Q.
Proof.
  destruct (create_grid_same_shape_batches nearest 0%Q 0 1
              (Some batch_64) None (Some batch_64) None None None
              batch_64 [batch_64])
    as (grid & Hrun & Hpix).
  - reflexivity.
  - unfold shape_ok. simpl. lia.
  - repeat constructor.
  - lia.
  - exists grid. split; [exact Hrun |].
    destruct (Hpix 3%nat (flat 1) eq_refl) as (cols & rows & canvas & Hdim & Hit & Hc).
    vm_compute in Hdim. injection Hdim as <- <-.
    exists canvas. split; [exact Hit |].
    exact (Hc 3 9 2 ltac:(simpl; lia) ltac:(simpl; lia) ltac:(simpl; lia)).
Defined.

(** A grid of one image with one column, or in automatic mode, is that
    image, whatever the padding: same height and width, same pixels. *)
Theorem create_grid_of_one_image {A : Type}
  (bilinear : Z -> Z -> Z -> Z -> Image A -> Image A) (zero : A)
  (columns padding : Z)
  (image_1 image_2 image_3 image_4 image_5 image_6 : option (Tensor A))
  (h w c : Z) (img : Image A) :
  omap id [image_1; image_2; image_3; image_4; image_5; image_6]
    = [mkTensor h w c [img]] ->
  0 <= h -> 0 <= w -> 0 <= c ->
  columns <= 1 ->
  exists canvas : Image A,
    create_grid bilinear zero columns padding
      image_1 image_2 image_3 image_4 image_5 image_6
    = Ok (mkTensor h w c [canvas])
    /\ forall y x ch,
         0 <= y < h -> 0 <= x < w -> 0 <= ch < c -> canvas y x ch = img y x ch.
Proof.
  intros Hall Hh Hw Hc Hcols.
  destruct (grid_setitem_inside h w c (fun _ _ _ => zero) (mkTensor3 h w c img) 0 0)
    as (canvas & Hset & Hin & _); cbn [t3H t3W t3C]; try lia; try reflexivity.
  cbn [t3H t3W t3C t3data] in *.
  exists canvas. split.
  - unfold create_grid. rewrite Hall. cbv zeta.
    unfold normalize_batches. cbn [mapM]. unfold resize_to_target.
    cbn [dimH dimW dimC]. rewrite !Z.eqb_refl. cbn [negb orb bind torch_cat forallb].
    cbn [dimH dimW dimC items map concat app].
    change (dimB (mkTensor h w c [img])) with 1. cbn [Z.eqb].
    assert (Hdim : grid_dimensions columns 1 = Ok (1, 1)).
    { unfold grid_dimensions. destruct (0 <? columns) eqn:E.
      - apply Z.ltb_lt in E. assert (columns = 1) by lia. subst. reflexivity.
      - reflexivity. }
    rewrite Hdim. cbn [bind]. unfold grid_height, grid_width.
    replace (1 * h + (1 - 1) * padding) with h by lia.
    replace (1 * w + (1 - 1) * padding) with w by lia.
    rewrite torch_zeros_one by assumption. cbn [bind].
    unfold tensor_rows. cbn [items map dimH dimW dimC place_images].
    unfold py_floordiv, py_mod. cbn [Z.eqb bind].
    change (0 / 1) with 0. change (0 mod 1) with 0.
    rewrite !Z.mul_0_l.
    unfold Image in Hset. rewrite Hset. reflexivity.
  - intros y x ch Hy Hx Hch. rewrite Hin by lia. f_equal; lia.
Qed.

Lemma create_grid_of_one_image_witness :
  exists canvas : Image Q,
    create_grid nearest 0%Q 0 (-7)
      None None (Some batch_128) None None None
    = Ok (mkTensor 128 128 3 [canvas])
    /\ canvas 100 20 1 = (1 # 4)%Q.
Proof.
  destruct (create_grid_of_one_image nearest 0%Q 0 (-7)
              None None (Some batch_128) None None None
              128 128 3 (flat (1 # 4)))
    as (canvas & Hrun & Hpix); try lia.
  - reflexivity.
  - exists canvas. split; [exact Hrun |]. apply Hpix; lia.
Defined.

(** * Further properties of the label renderer *)

(** ** Where the box lands *)

Lemma calculate_position_cases (iw ih bw bh e : Z) (placement : string) :
  calculate_position iw ih bw bh placement e = (e, e)
  \/ calculate_position iw ih bw bh placement e = (iw - bw - e, e)
  \/ calculate_position iw ih bw bh placement e = (e, ih - bh - e)
  \/ calculate_position iw ih bw bh placement e = (iw - bw - e, ih - bh - e)
  \/ calculate_position iw ih bw bh placement e = ((iw - bw) / 2, (ih - bh) / 2).
Proof.
  destruct (decide (placement ∈ known_anchors)) as [Hin | Hout].
  - unfold known_anchors in Hin. rewrite !elem_of_cons in Hin.
    destruct Hin as [-> | [-> | [-> | [-> | [-> | Hnil]]]]].
    + left. reflexivity.
    + right. left. reflexivity.
    + right. right. left. reflexivity.
    + right. right. right. left. reflexivity.
    + right. right. right. right. reflexivity.
    + apply elem_of_nil in Hnil. destruct Hnil.
  - right. right. right. right.
    rewrite (calculate_position_unknown _ _ _ _ _ _ Hout). reflexivity.
Qed.

(** A box that fits in the image together with the edge offset is placed
    entirely inside the image, whatever the anchor string is. *)
Theorem calculate_position_inside_image (iw ih bw bh e : Z) (placement : string) :
  0 <= e -> 0 <= bw -> 0 <= bh -> bw + e <= iw -> bh + e <= ih ->
  let '(x, y) := calculate_position iw ih bw bh placement e in
  0 <= x /\ x + bw <= iw /\ 0 <= y /\ y + bh <= ih.
Proof.
  intros He Hbw Hbh Hw Hh.
  assert (0 <= (iw - bw) / 2 /\ (iw - bw) / 2 + bw <= iw).
  { split; [apply Z.div_pos; lia |].
    pose proof (Z.div_mod (iw - bw) 2 ltac:(lia)).
    pose proof (Z.mod_pos_bound (iw - bw) 2 ltac:(lia)). lia. }
  assert (0 <= (ih - bh) / 2 /\ (ih - bh) / 2 + bh <= ih).
  { split; [apply Z.div_pos; lia |].
    pose proof (Z.div_mod (ih - bh) 2 ltac:(lia)).
    pose proof (Z.mod_pos_bound (ih - bh) 2 ltac:(lia)). lia. }
  destruct (calculate_position_cases iw ih bw bh e placement)
    as [-> | [-> | [-> | [-> | ->]]]]; lia.
Qed.

Lemma calculate_position_inside_image_witness :
  let '(x, y) := calculate_position 640 480 120 40 "bottom_right" 25 in
  0 <= x /\ x + 120 <= 640 /\ 0 <= y /\ y + 40 <= 480.
Proof.
  apply (calculate_position_inside_image 640 480 120 40 25 "bottom_right"); lia.
Defined.

(** The centre anchor, and every unrecognized anchor, leaves margins that
    differ by at most one pixel, the larger one on the right and at the
    bottom; this holds for boxes larger than the image as well. *)
Theorem calculate_position_center_margins (iw ih bw bh e : Z) (placement : string) :
  placement = "center" \/ placement ∉ known_anchors ->
  let '(x, y) := calculate_position iw ih bw bh placement e in
  0 <= (iw - bw - x) - x <= 1 /\ 0 <= (ih - bh - y) - y <= 1.
Proof.
  intros Hp.
  assert (Hc : calculate_position iw ih bw bh placement e
               = ((iw - bw) / 2, (ih - bh) / 2)).
  { destruct Hp as [-> | Hout]; [reflexivity |].
    rewrite (calculate_position_unknown _ _ _ _ _ _ Hout). reflexivity. }
  rewrite Hc.
  pose proof (Z.div_mod (iw - bw) 2 ltac:(lia)).
  pose proof (Z.mod_pos_bound (iw - bw) 2 ltac:(lia)).
  pose proof (Z.div_mod (ih - bh) 2 ltac:(lia)).
  pose proof (Z.mod_pos_bound (ih - bh) 2 ltac:(lia)).
  lia.
Qed.

Lemma calculate_position_center_margins_witness :
  let '(x, y) := calculate_position 101 50 200 21 "middle" 9 in
  0 <= (101 - 200 - x) - x <= 1 /\ 0 <= (50 - 21 - y) - y <= 1.
Proof.
  apply (calculate_position_center_margins 101 50 200 21 9 "middle").
  right. unfold known_anchors. rewrite !not_elem_of_cons.
  repeat split; try discriminate. apply not_elem_of_nil.
Defined.

(** ** Tensor to image and back *)


Lemma sample_to_uint8_of_byte (b : Byte.byte) :
  sample_to_uint8 (byte_val b # 255) = b.
Proof. destruct b; vm_compute; reflexivity. Qed.

Lemma fromarray_mode_bands (m : Mode) :
  m <> ModeL -> fromarray_mode (bands m) = Ok m.
Proof. destruct m; [congruence | reflexivity | reflexivity | reflexivity]. Qed.

(** An 8-bit image of two to four bands survives the conversion to a tensor
    and back: same mode, same size, same bytes. *)
Theorem tensor_to_pil_of_pil_to_tensor (image : PILImage) :
  im_mode image <> ModeL ->
  exists image',
    tensor_to_pil (pil_to_tensor image) = Ok image'
    /\ im_mode image' = im_mode image
    /\ im_width image' = im_width image
    /\ im_height image' = im_height image
    /\ forall x y b, im_data image' x y b = im_data image x y b.
Proof.
  intros Hm. unfold tensor_to_pil, pil_to_tensor. cbn [t3H t3W t3C t3data].
  rewrite (fromarray_mode_bands _ Hm). cbn [bind].
  eexists. split; [reflexivity |]. cbn [im_mode im_width im_height im_data].
  repeat split. intros x y b. apply sample_to_uint8_of_byte.
Qed.

Lemma tensor_to_pil_of_pil_to_tensor_witness :
  exists image',
    tensor_to_pil (pil_to_tensor (Image_new_RGBA 4 3)) = Ok image'
    /\ im_mode image' = ModeRGBA
    /\ im_width image' = 4
    /\ im_height image' = 3
    /\ forall x y b, im_data image' x y b = Byte.x00.
Proof.
  apply (tensor_to_pil_of_pil_to_tensor (Image_new_RGBA 4 3)). discriminate.
Defined.



(** ** More on colour strings *)

Lemma py_int_of_float_opacity (k : Z) :
  py_int_of_float (inject_Z k / 255 * 255) = k.
Proof.
  unfold py_int_of_float. cbn.
  replace (k * 1 * 255) with (k * 255) by lia.
  apply Z.quot_mul. discriminate.
Qed.

(** The opacity [k / 255.0] that [add_text_label] passes for a background
    opacity [k] comes back as the alpha byte [k] itself, clamped to 0..255,
    whatever the colour string is. *)
Theorem hex_to_rgba_alpha_of_byte_opacity (hex_color : string) (k : Z)
  (r g b a : Z) :
  hex_to_rgba hex_color (inject_Z k / 255) = Ok (r, g, b, a) ->
  a = Z.max 0 (Z.min 255 k).
Proof.
  unfold hex_to_rgba. rewrite py_int_of_float_opacity.
  match goal with
  | |- bind ?rgb _ = _ -> _ => destruct rgb as [[[r' g'] b'] |]
  end; cbn [bind]; [| discriminate].
  intros H. injection H as _ _ _ <-. reflexivity.
Qed.

Lemma hex_to_rgba_alpha_of_byte_opacity_witness :
  hex_to_rgba "#000000" (inject_Z 300 / 255) = Ok (0, 0, 0, 255)
  /\ 255 = Z.max 0 (Z.min 255 300).
Proof.
  split; [reflexivity |].
  apply (hex_to_rgba_alpha_of_byte_opacity "#000000" 300 0 0 0 255).
  reflexivity.
Defined.

(** The short form of a colour is the long form with every character
    doubled: both give the same result, error included. *)
Theorem hex_to_rgba_short_form (short long : string) (c1 c2 c3 : ascii) (alpha : Q) :
  color_body short = String c1 (String c2 (String c3 EmptyString)) ->
  color_body long =
    String c1 (String c1 (String c2 (String c2 (String c3 (String c3 EmptyString))))) ->
  hex_to_rgba short alpha = hex_to_rgba long alpha.
Proof.
  intros Hs Hl. rewrite !hex_to_rgba_unfold, Hs, Hl. cbv zeta.
  change (len (String c1 (String c2 (String c3 EmptyString))) =? 3) with true.
  match goal with |- context [len ?s =? 3] => change (len s =? 3) with false end.
  match goal with |- context [len ?s =? 6] => change (len s =? 6) with true end.
  cbv [str_slice]. cbn [String.substring Nat.sub list_ascii_of_string mapM].
  fold (str_twice c1) (str_twice c2) (str_twice c3).
  destruct (py_int16 (str_twice c1)) as [r |]; cbn [bind]; [| reflexivity].
  destruct (py_int16 (str_twice c2)) as [g |]; cbn [bind]; [| reflexivity].
  destruct (py_int16 (str_twice c3)) as [b |]; cbn [bind]; reflexivity.
Qed.

Lemma hex_to_rgba_short_form_witness :
  hex_to_rgba "#fa0" (1 # 2) = hex_to_rgba " ffaa00" (1 # 2).
Proof.
  apply (hex_to_rgba_short_form "#fa0" " ffaa00" "f" "a" "0")%char; reflexivity.
Defined.

Lemma lstrip_spaces_app (pre s : string) :
  all_space pre = true ->
  lstrip_by py_isspace (pre +:+ s) = lstrip_by py_isspace s.
Proof.
  induction pre as [| c pre IH]; intros H; [reflexivity |].
  cbn [all_space] in H. apply andb_prop in H as [Hc Hpre].
  change (String c pre +:+ s) with (String c (pre +:+ s)).
  cbn [lstrip_by]. rewrite Hc. auto.
Qed.

Lemma rstrip_all_space (post : string) :
  all_space post = true -> rstrip_by py_isspace post = EmptyString.
Proof.
  induction post as [| c post IH]; intros H; [reflexivity |].
  cbn [all_space] in H. apply andb_prop in H as [Hc Hpost].
  cbn [rstrip_by]. rewrite (IH Hpost). cbv iota. rewrite Hc. reflexivity.
Qed.

Lemma rstrip_app_spaces (s post : string) :
  all_space post = true ->
  rstrip_by py_isspace (s +:+ post) = rstrip_by py_isspace s.
Proof.
  intros H. induction s as [| c s IH]; [apply rstrip_all_space; exact H |].
  change (String c s +:+ post) with (String c (s +:+ post)).
  cbn [rstrip_by]. rewrite IH. reflexivity.
Qed.

Lemma lstrip_not_space (s : string) :
  starts_with_space s = false -> lstrip_by py_isspace s = s.
Proof.
  destruct s as [| c s]; [reflexivity |]. cbn [starts_with_space lstrip_by].
  intros ->. reflexivity.
Qed.

Lemma color_body_surrounded (pre post s : string) :
  all_space pre = true -> all_space post = true ->
  color_body (pre +:+ s +:+ post) = color_body s.
Proof.
  intros Hpre Hpost. unfold color_body, str_strip.
  rewrite (lstrip_spaces_app _ _ Hpre).
  destruct (lstrip_by py_isspace (s +:+ post)) as [| c t] eqn:E.
  - (* nothing but white space is left *)
    assert (Hs : lstrip_by py_isspace s = EmptyString).
    { clear Hpre. induction s as [| d s IH]; [reflexivity |].
      change (String d s +:+ post) with (String d (s +:+ post)) in E.
      cbn [lstrip_by] in E |- *.
      destruct (py_isspace d); [auto | discriminate E]. }
    rewrite Hs. reflexivity.
  - assert (Hs : lstrip_by py_isspace (s +:+ post)
                 = lstrip_by py_isspace s +:+ post
                 \/ lstrip_by py_isspace s = EmptyString).
    { clear E Hpre. induction s as [| d s IH]; [right; reflexivity |].
      change (String d s +:+ post) with (String d (s +:+ post)).
      cbn [lstrip_by].
      destruct (py_isspace d); [exact IH | left; reflexivity]. }
    destruct Hs as [Hs | Hs].
    + rewrite <- E, Hs, (rstrip_app_spaces _ _ Hpost). reflexivity.
    + (* [s] is white space only, and so is what follows *)
      assert (Hall : all_space (s +:+ post) = true).
      { clear E Hpre. induction s as [| d s IH]; [exact Hpost |].
        change (String d s +:+ post) with (String d (s +:+ post)).
        cbn [lstrip_by] in Hs. cbn [all_space].
        destruct (py_isspace d); [cbn [andb]; auto | discriminate Hs]. }
      assert (Hnil : lstrip_by py_isspace (s +:+ post) = EmptyString).
      { clear E Hs Hpre Hpost.
        induction (s +:+ post) as [| d u IH]; [reflexivity |].
        cbn [all_space] in Hall. apply andb_prop in Hall as [Hd Hu].
        cbn [lstrip_by]. rewrite Hd. auto. }
      rewrite Hnil in E. discriminate E.
Qed.

Lemma color_body_hash (s : string) :
  starts_with_space s = false ->
  color_body (String "#" s) = color_body s.
Proof.
  intros Hs. unfold color_body, str_strip.
  rewrite (lstrip_not_space s Hs).
  cbn [lstrip_by]. change (py_isspace "#") with false. cbv iota.
  cbn [rstrip_by].
  destruct (rstrip_by py_isspace s) as [| c t].
  - reflexivity.
  - unfold str_lstrip at 1. cbn [lstrip_by str_contains].
    change (Ascii.eqb "#" "#") with true. cbn [orb]. reflexivity.
Qed.

Lemma hex_to_rgba_body (s t : string) (alpha : Q) :
  color_body s = color_body t -> hex_to_rgba s alpha = hex_to_rgba t alpha.
Proof. intros H. rewrite !hex_to_rgba_unfold, H. reflexivity. Qed.

(** White space around a colour string is ignored, and so is a [#] in
    front of a string that does not start with white space: the result, an
    error included, is that of the bare string. *)
Theorem hex_to_rgba_ignores_decoration (pre post s : string) (alpha : Q) :
  all_space pre = true -> all_space post = true ->
  hex_to_rgba (pre +:+ s +:+ post) alpha = hex_to_rgba s alpha
  /\ (starts_with_space s = false ->
      hex_to_rgba (pre +:+ String "#" s +:+ post) alpha = hex_to_rgba s alpha).
Proof.
  intros Hpre Hpost. split.
  - apply hex_to_rgba_body, color_body_surrounded; assumption.
  - intros Hs. apply hex_to_rgba_body.
    change (pre +:+ String "#" s +:+ post) with (pre +:+ (String "#" s) +:+ post).
    rewrite (color_body_surrounded pre post (String "#" s) Hpre Hpost).
    apply color_body_hash. exact Hs.
Qed.

Lemma hex_to_rgba_ignores_decoration_witness :
  hex_to_rgba "  ff8000 " (1 # 2) = hex_to_rgba "ff8000" (1 # 2)
  /\ hex_to_rgba "  #ff8000 " (1 # 2) = hex_to_rgba "ff8000" (1 # 2).
Proof.
  destruct (hex_to_rgba_ignores_decoration "  " " " "ff8000" (1 # 2))
    as [Hplain Hhash]; try reflexivity.
  split; [exact Hplain | apply Hhash; reflexivity].
Defined.

Lemma all_chars_complete (c : ascii) : In c all_chars.
Proof.
  unfold all_chars. rewrite <- (ascii_nat_embedding c).
  apply in_map. apply in_seq. pose proof (nat_ascii_bounded c). lia.
Qed.

Lemma all_pairs_in_range :
  forallb (fun c1 => forallb (pair_in_range c1) all_chars) all_chars = true.
Proof. vm_compute. reflexivity. Qed.

Lemma py_int16_pair_range (c1 c2 : ascii) (v : Z) :
  py_int16 (String c1 (String c2 EmptyString)) = Ok v -> -15 <= v <= 255.
Proof.
  intros H. pose proof all_pairs_in_range as Hall.
  rewrite forallb_forall in Hall. specialize (Hall c1 (all_chars_complete c1)).
  rewrite forallb_forall in Hall. specialize (Hall c2 (all_chars_complete c2)).
  unfold pair_in_range in Hall. rewrite H in Hall.
  apply andb_prop in Hall as [Hlo Hhi]. lia.
Qed.

Lemma py_int16_twice_range (c : ascii) (v : Z) :
  py_int16 (str_twice c) = Ok v -> 0 <= v <= 255.
Proof.
  intros H. destruct (hex_digit_value c) as [d |] eqn:Ed.
  - rewrite (py_int16_twice _ _ Ed) in H. injection H as <-.
    pose proof (hex_digit_value_range _ _ Ed). lia.
  - rewrite (py_int16_twice_bad _ Ed) in H. discriminate H.
Qed.

(** A colour that [hex_to_rgba] returns has its alpha in 0..255 and its
    three channels in -15..255; they are in 0..255 unless the stripped string
    has six characters. The negative values come from [int(..., 16)], which
    reads a pair made of a minus sign and a digit. *)
Theorem hex_to_rgba_channel_range (hex_color : string) (alpha : Q) (r g b a : Z) :
  hex_to_rgba hex_color alpha = Ok (r, g, b, a) ->
  0 <= a <= 255
  /\ -15 <= r <= 255 /\ -15 <= g <= 255 /\ -15 <= b <= 255
  /\ (len (color_body hex_color) <> 6 ->
      0 <= r <= 255 /\ 0 <= g <= 255 /\ 0 <= b <= 255).
Proof.
  rewrite hex_to_rgba_unfold. cbv zeta.
  assert (Ha : 0 <= floor_alpha alpha <= 255).
  { rewrite <- alpha_value_floor. lia. }
  destruct (len (color_body hex_color) =? 3) eqn:E3.
  - apply Z.eqb_eq in E3. destruct (len_three _ E3) as (c1 & c2 & c3 & ->).
    cbn [list_ascii_of_string mapM].
    destruct (py_int16 (str_twice c1)) as [v1 |] eqn:E1; cbn [bind]; [| discriminate].
    destruct (py_int16 (str_twice c2)) as [v2 |] eqn:E2; cbn [bind]; [| discriminate].
    destruct (py_int16 (str_twice c3)) as [v3 |] eqn:E3'; cbn [bind]; [| discriminate].
    intros H. injection H as <- <- <- <-.
    apply py_int16_twice_range in E1, E2, E3'. repeat split; lia.
  - destruct (len (color_body hex_color) =? 6) eqn:E6.
    + apply Z.eqb_eq in E6.
      destruct (len_six _ E6) as (c1 & c2 & c3 & c4 & c5 & c6 & ->).
      cbv [str_slice]. cbn [String.substring Nat.sub].
      destruct (py_int16 (String c1 (String c2 EmptyString))) as [v1 |] eqn:E1;
        cbn [bind]; [| discriminate].
      destruct (py_int16 (String c3 (String c4 EmptyString))) as [v2 |] eqn:E2;
        cbn [bind]; [| discriminate].
      destruct (py_int16 (String c5 (String c6 EmptyString))) as [v3 |] eqn:E3';
        cbn [bind]; [| discriminate].
      intros H. injection H as <- <- <- <-.
      apply py_int16_pair_range in E1, E2, E3'.
      do 4 (split; [lia |]). intros Hne. exfalso. apply Hne. reflexivity.
    + cbn [bind]. intros H. injection H as <- <- <- <-. repeat split; lia.
Qed.

Lemma hex_to_rgba_channel_range_witness :
  hex_to_rgba "-f0a+7" (1 # 2) = Ok (-15, 10, 7, 127)
  /\ 0 <= 127 <= 255 /\ -15 <= -15 <= 255.
Proof.
  split; [reflexivity |].
  destruct (hex_to_rgba_channel_range "-f0a+7" (1 # 2) (-15) 10 7 127)
    as (Ha & Hr & _); [reflexivity |].
  split; assumption.
Defined.

(** ** Letter case *)

Lemma chr_lower_isspace (c : ascii) : py_isspace (chr_lower c) = py_isspace c.
Proof. each_ascii c; reflexivity. Qed.

Lemma chr_lower_hex (c : ascii) : hex_digit_value (chr_lower c) = hex_digit_value c.
Proof. each_ascii c; reflexivity. Qed.

Lemma chr_lower_underscore (c : ascii) : is_underscore (chr_lower c) = is_underscore c.
Proof. each_ascii c; reflexivity. Qed.

Lemma chr_lower_hash (c : ascii) :
  str_contains "#" (chr_lower c) = str_contains "#" c.
Proof. each_ascii c; reflexivity. Qed.

Lemma lstrip_by_lower (p : ascii -> bool) (s : string) :
  (forall c, p (chr_lower c) = p c) ->
  lstrip_by p (str_lower s) = str_lower (lstrip_by p s).
Proof.
  intros Hp. induction s as [| c s IH]; [reflexivity |].
  cbn [str_lower lstrip_by]. rewrite Hp. destruct (p c); [exact IH | reflexivity].
Qed.

Lemma rstrip_by_lower (p : ascii -> bool) (s : string) :
  (forall c, p (chr_lower c) = p c) ->
  rstrip_by p (str_lower s) = str_lower (rstrip_by p s).
Proof.
  intros Hp. induction s as [| c s IH]; [reflexivity |].
  cbn [str_lower rstrip_by]. rewrite IH, Hp.
  destruct (rstrip_by p s); [destruct (p c) |]; reflexivity.
Qed.

Lemma color_body_lower (s : string) :
  color_body (str_lower s) = str_lower (color_body s).
Proof.
  unfold color_body, str_strip, str_lstrip.
  rewrite (lstrip_by_lower _ _ chr_lower_isspace).
  rewrite (rstrip_by_lower _ _ chr_lower_isspace).
  apply lstrip_by_lower, chr_lower_hash.
Qed.

Lemma str_lower_length (s : string) : String.length (str_lower s) = String.length s.
Proof. induction s as [| c s IH]; [reflexivity |]. cbn. rewrite IH. reflexivity. Qed.

Lemma strip_sign_lower (s : string) :
  strip_sign (str_lower s) = (fst (strip_sign s), str_lower (snd (strip_sign s))).
Proof.
  destruct s as [| c s]; [reflexivity |]. each_ascii c; reflexivity.
Qed.

Lemma strip_0x_lower (s : string) : strip_0x (str_lower s) = str_lower (strip_0x s).
Proof.
  destruct s as [| c s]; [reflexivity |].
  destruct s as [| x s]; [each_ascii c; reflexivity |].
  each_ascii c; try reflexivity.
  each_ascii x; try reflexivity.
  - destruct s as [| u s]; [reflexivity |]. each_ascii u; reflexivity.
  - destruct s as [| u s]; [reflexivity |]. each_ascii u; reflexivity.
Qed.

Lemma starts_with_underscore_lower (s : string) :
  starts_with_underscore (str_lower s) = starts_with_underscore s.
Proof. destruct s as [| c s]; [reflexivity |]. apply chr_lower_underscore. Qed.

Lemma scan_digits_lower (s : string) :
  forall (prev : bool) (n : nat) (acc : Z),
    scan_digits (str_lower s) prev n acc =
    match scan_digits s prev n acc with
    | Some (v, k, rest) => Some (v, k, str_lower rest)
    | None => None
    end.
Proof.
  induction s as [| c s IH]; intros prev n acc.
  - cbn. destruct prev; reflexivity.
  - cbn [str_lower scan_digits].
    rewrite chr_lower_underscore, chr_lower_hex.
    destruct (is_underscore c).
    + destruct prev; [reflexivity | apply IH].
    + destruct (hex_digit_value c); [apply IH |].
      destruct prev; reflexivity.
Qed.

Lemma str_lower_empty (s : string) :
  str_lower s = EmptyString <-> s = EmptyString.
Proof. destruct s; cbn; split; congruence. Qed.

Lemma py_int16_lower (s : string) : py_int16 (str_lower s) = py_int16 s.
Proof.
  unfold py_int16.
  rewrite (lstrip_by_lower _ _ chr_lower_isspace), strip_sign_lower.
  destruct (strip_sign (lstrip_by py_isspace s)) as [sign s1]. cbn [fst snd].
  rewrite strip_0x_lower, starts_with_underscore_lower.
  destruct (starts_with_underscore (strip_0x s1)); [reflexivity |].
  rewrite scan_digits_lower.
  destruct (scan_digits (strip_0x s1) false 0 0) as [[[v [| k]] rest] |];
    try reflexivity.
  rewrite (lstrip_by_lower _ _ chr_lower_isspace).
  destruct (lstrip_by py_isspace rest); reflexivity.
Qed.

(** Colour strings are case-insensitive: lowering the string changes
    neither the colour nor the error. *)
Theorem hex_to_rgba_case_insensitive (hex_color : string) (alpha : Q) :
  hex_to_rgba (str_lower hex_color) alpha = hex_to_rgba hex_color alpha.
Proof.
  rewrite !hex_to_rgba_unfold, color_body_lower. cbv zeta.
  unfold len. rewrite str_lower_length. fold (len (color_body hex_color)).
  destruct (len (color_body hex_color) =? 3) eqn:E3.
  - apply Z.eqb_eq in E3. destruct (len_three _ E3) as (c1 & c2 & c3 & ->).
    cbn [str_lower list_ascii_of_string mapM].
    change (str_twice (chr_lower c1)) with (str_lower (str_twice c1)).
    change (str_twice (chr_lower c2)) with (str_lower (str_twice c2)).
    change (str_twice (chr_lower c3)) with (str_lower (str_twice c3)).
    rewrite !py_int16_lower. reflexivity.
  - destruct (len (color_body hex_color) =? 6) eqn:E6; [| reflexivity].
    apply Z.eqb_eq in E6.
    destruct (len_six _ E6) as (c1 & c2 & c3 & c4 & c5 & c6 & ->).
    cbv [str_slice]. cbn [str_lower String.substring Nat.sub].
    change (String (chr_lower c1) (String (chr_lower c2) EmptyString))
      with (str_lower (String c1 (String c2 EmptyString))).
    change (String (chr_lower c3) (String (chr_lower c4) EmptyString))
      with (str_lower (String c3 (String c4 EmptyString))).
    change (String (chr_lower c5) (String (chr_lower c6) EmptyString))
      with (str_lower (String c5 (String c6 EmptyString))).
    rewrite !py_int16_lower. reflexivity.
Qed.

(** The same colour in mixed and in lower case. *)
Example hex_to_rgba_mixed_case :
  hex_to_rgba "#Ff8C00" 1 = Ok (255, 140, 0, 255)
  /\ hex_to_rgba "#ff8c00" 1 = Ok (255, 140, 0, 255).
Proof. split; reflexivity. Qed.

(** ** The geometry of one label *)

(** [label_image] draws the box and the text where [label_geometry] says. *)
Lemma label_image_geometry {Font : Type} (d : DrawLib Font) (st : LabelStyle)
  (font : Font) (text_color bg_color stroke_color : string) (image_i : Tensor3 Q) :
  label_image d st font text_color bg_color stroke_color image_i
  = label_image_with_geometry d st font text_color bg_color stroke_color image_i.
Proof.
  unfold label_image, label_image_with_geometry, label_geometry.
  destruct (tensor_to_pil image_i) as [im0 |]; cbn [bind]; [| reflexivity].
  destruct (get_text_bbox d (text st) font) as [[[[l t] r] b] |];
    cbn [bind]; [| reflexivity].
  destruct (calculate_position _ _ _ _ _ _) as [x y].
  reflexivity.
Qed.

Lemma py_int_of_float_integer (z : Z) (q : Q) :
  (q == inject_Z z)%Q -> py_int_of_float q = z.
Proof.
  intros H. unfold py_int_of_float. destruct q as [n dq].
  unfold Qeq in H. cbn in H |- *.
  rewrite Z.mul_1_r in H. subst n.
  apply Z.quot_mul. discriminate.
Qed.

(** [label_image] draws the box at the rectangle and the text at the point
    that [label_geometry] computes, and the measured text rectangle sits
    [padding] pixels inside that box on every side: the text is drawn at the
    point that puts its left and top ink edges [padding] pixels after the box
    corner, and its right and bottom ink edges [padding] pixels before the
    opposite corner. *)
Theorem label_image_text_inset (st : LabelStyle) :
  (forall (Font : Type) (d : DrawLib Font) (font : Font)
          (text_color bg_color stroke_color : string) (image_i : Tensor3 Q),
      label_image d st font text_color bg_color stroke_color image_i
      = label_image_with_geometry d st font text_color bg_color stroke_color image_i)
  /\ (forall left_ top right_ bottom image_width image_height,
        let g := label_geometry st (left_, top, right_, bottom)
                   image_width image_height in
        g_text_x g + left_ = g_x g + padding st
        /\ g_text_y g + top = g_y g + padding st
        /\ g_text_x g + right_ = g_x g + g_box_width g - padding st
        /\ g_text_y g + bottom = g_y g + g_box_height g - padding st).
Proof.
  split; [intros; apply label_image_geometry |].
  intros left_ top right_ bottom image_width image_height.
  unfold label_geometry.
  destruct (calculate_position _ _ _ _ _ _) as [x y].
  cbv zeta. cbn [g_text_x g_text_y g_x g_y g_box_width g_box_height].
  rewrite (py_int_of_float_integer (x + padding st - left_)).
  - rewrite (py_int_of_float_integer (y + padding st - top)).
    + lia.
    + unfold Z.sub.
      repeat first [rewrite inject_Z_plus | rewrite inject_Z_opp
                    | rewrite inject_Z_mult].
      change (inject_Z 2) with 2%Q. unfold Qdiv. change (/ 2)%Q with (1 # 2)%Q. lra.
  - unfold Z.sub.
    repeat first [rewrite inject_Z_plus | rewrite inject_Z_opp
                  | rewrite inject_Z_mult].
    change (inject_Z 2) with 2%Q. unfold Qdiv. change (/ 2)%Q with (1 # 2)%Q. lra.
Qed.

(** [label_image] passes to the rounded-rectangle painter the radius that
    [label_geometry] computes, and that radius is never negative, never
    above the requested radius when that one is not negative, and at most
    half of the smaller side of a box whose sides are not negative. *)
Theorem label_image_corner_radius (st : LabelStyle) :
  (forall (Font : Type) (d : DrawLib Font) (font : Font)
          (text_color bg_color stroke_color : string) (image_i : Tensor3 Q),
      label_image d st font text_color bg_color stroke_color image_i
      = label_image_with_geometry d st font text_color bg_color stroke_color image_i)
  /\ (forall bbox image_width image_height,
        let g := label_geometry st bbox image_width image_height in
        0 <= g_radius g
        /\ (0 <= corner_radius st -> g_radius g <= corner_radius st)
        /\ (0 <= g_box_width g -> 0 <= g_box_height g ->
            2 * g_radius g <= g_box_width g /\ 2 * g_radius g <= g_box_height g)).
Proof.
  split; [intros; apply label_image_geometry |].
  intros bbox image_width image_height.
  unfold label_geometry. destruct bbox as [[[l t] r] b].
  destruct (calculate_position _ _ _ _ _ _) as [x y].
  cbv zeta. cbn [g_radius g_box_width g_box_height].
  set (bw := r - l + padding st * 2). set (bh := b - t + padding st * 2).
  pose proof (Z.div_mod (Z.min bw bh) 2 ltac:(lia)).
  pose proof (Z.mod_pos_bound (Z.min bw bh) 2 ltac:(lia)).
  repeat split; lia.
Qed.

Lemma label_image_corner_radius_witness :
  let g := label_geometry sample_style (0, 2, 16, 12) 60 40 in
  0 <= g_radius g /\ g_radius g <= 4
  /\ 2 * g_radius g <= g_box_width g /\ 2 * g_radius g <= g_box_height g.
Proof.
  destruct (label_image_corner_radius sample_style) as [_ Hgeo].
  destruct (Hgeo (0, 2, 16, 12) 60 40) as (H0 & Hc & Hb).
  cbv zeta. split; [exact H0 |]. split; [apply Hc; simpl; lia |].
  apply Hb; vm_compute; discriminate.
Defined.

(** ** What [add_text_label] returns *)

(** A returned batch is the stack of the renderings of the input images. *)
Lemma add_text_label_Ok_inv {Font : Type} (env : OsEnv) (fl : FontLib Font)
  (d : DrawLib Font) (image : ImageArg) (st : LabelStyle) (out : Tensor Q) :
  add_text_label env fl d image st = Ok out ->
  exists rs,
    mapM (render_one env fl d st) (tensor_rows (as_batch image)) = Ok rs
    /\ rs <> []
    /\ out = mkTensor (dimH (as_batch image)) (dimW (as_batch image)) 3
               (map t3data rs).
Proof.
  rewrite add_text_label_unfold. fold (as_batch image).
  destruct (mapM _ _) as [rs |] eqn:Hrs; cbn [bind]; [| discriminate].
  intros Hstack. exists rs. split; [reflexivity |].
  destruct (mapM_rows_lookup _ _ _ _ Hrs) as (_ & _ & Hin).
  assert (Hshape : Forall (fun r => t3H r = dimH (as_batch image)
                                    /\ t3W r = dimW (as_batch image)
                                    /\ t3C r = 3) rs).
  { apply Forall_forall. intros r Hr. apply list_elem_of_In in Hr.
    destruct (Hin r Hr) as (x & Hx).
    apply render_one_result in Hx as (Hh & Hw & Hc & _). auto. }
  assert (Hne : rs <> []).
  { intros ->. cbn in Hstack. discriminate Hstack. }
  split; [exact Hne |].
  rewrite (torch_stack_same_shape rs _ _ _ Hne Hshape) in Hstack.
  injection Hstack as <-. reflexivity.
Qed.

(** Whatever [add_text_label] returns is an RGB batch: three channels,
    whatever the channel count of the input was, at least one image, as many
    images as the input has (one for a 3D input), and the height and width
    of the input. *)
Theorem add_text_label_returns_rgb {Font : Type} (env : OsEnv)
  (fl : FontLib Font) (d : DrawLib Font) (image : ImageArg) (st : LabelStyle)
  (out : Tensor Q) :
  add_text_label env fl d image st = Ok out ->
  dimC out = 3
  /\ 1 <= dimB out
  /\ dimB out = match image with Arg3 _ => 1 | Arg4 t => dimB t end
  /\ dimH out = match image with Arg3 t => t3H t | Arg4 t => dimH t end
  /\ dimW out = match image with Arg3 t => t3W t | Arg4 t => dimW t end.
Proof.
  intros H. apply add_text_label_Ok_inv in H as (rs & Hrs & Hne & ->).
  destruct (mapM_rows_lookup _ _ _ _ Hrs) as (Hlen & _ & _).
  unfold dimB. cbn [dimC dimH dimW items]. rewrite length_map, Hlen.
  split; [reflexivity |]. split.
  - destruct rs; [contradiction |]. rewrite <- Hlen. cbn [length]. lia.
  - destruct image as [t | t]; cbn; auto.
Qed.

Lemma add_text_label_returns_rgb_witness :
  exists out,
    add_text_label linux_env only_bundled_arial block_painters
      (Arg3 (mkTensor3 40 60 4 (flat (1 # 2)))) sample_style = Ok out
    /\ dimC out = 3 /\ 1 <= dimB out /\ dimB out = 1
    /\ dimH out = 40 /\ dimW out = 60.
Proof.
  eexists. split; [reflexivity |].
  apply (add_text_label_returns_rgb linux_env only_bundled_arial block_painters
           (Arg3 (mkTensor3 40 60 4 (flat (1 # 2)))) sample_style).
  reflexivity.
Defined.

(** [add_text_label] adds no failure of its own on a batch that is not
    empty: with two to four channels, a measurement that works and painters
    that do not raise, it returns. *)
Theorem add_text_label_succeeds {Font : Type} (env : OsEnv)
  (fl : FontLib Font) (d : DrawLib Font) (image : ImageArg) (st : LabelStyle) :
  items (as_batch image) <> [] ->
  2 <= dimC (as_batch image) <= 4 ->
  (forall font, is_Ok (get_text_bbox d (text st) font)) ->
  (forall im box radius fill, is_Ok (rounded_rectangle d im box radius fill)) ->
  (forall im xy txt font fill align width stroke,
      is_Ok (multiline_text d im xy txt font fill align width stroke)) ->
  is_Ok (add_text_label env fl d image st).
Proof.
  intros Hne Hc Hbbox Hrect Htext.
  rewrite add_text_label_unfold. fold (as_batch image).
  assert (Hall : Forall (fun t => is_Ok (render_one env fl d st t))
                   (tensor_rows (as_batch image))).
  { apply Forall_forall. intros t Ht. apply list_elem_of_In in Ht.
    unfold tensor_rows in Ht. apply in_map_iff in Ht as (img & <- & _).
    apply render_one_succeeds; assumption. }
  destruct (mapM_all_Ok _ _ Hall) as (rs & Hrs).
  rewrite Hrs. cbn [bind].
  destruct (mapM_rows_lookup _ _ _ _ Hrs) as (Hlen & _ & Hin).
  rewrite (torch_stack_same_shape rs (dimH (as_batch image))
             (dimW (as_batch image)) 3).
  - exact I.
  - intros ->. destruct (items (as_batch image)); [contradiction | discriminate Hlen].
  - apply Forall_forall. intros r Hr. apply list_elem_of_In in Hr.
    destruct (Hin r Hr) as (x & Hx).
    apply render_one_result in Hx as (Hh & Hw & Hc' & _). auto.
Qed.

Lemma add_text_label_succeeds_witness :
  is_Ok (add_text_label darwin_env no_font_files block_painters
           (Arg4 label_batch) sample_style).
Proof.
  apply (add_text_label_succeeds darwin_env no_font_files block_painters
           (Arg4 label_batch) sample_style).
  - discriminate.
  - simpl. lia.
  - intros font. exact I.
  - intros im box radius fill. exact I.
  - intros im xy txt font fill align width stroke. exact I.
Defined.

(** ** Where a loaded font comes from *)

(** The font [load_font] returns is the one [ImageFont.truetype] gave for a
    candidate path of the family, at the requested size, every earlier
    candidate having failed; or it is the built-in font, and then every
    candidate failed. *)
Theorem load_font_result_origin {Font : Type} (env : OsEnv) (lib : FontLib Font)
  (family : string) (size : Z) (f : Font) :
  load_font env lib family size = Ok f ->
  (exists before path after,
      get_font_paths env family = before ++ path :: after
      /\ Forall (font_fails lib size) before
      /\ ImageFont_truetype lib path size = Ok f)
  \/ (Forall (font_fails lib size) (get_font_paths env family)
      /\ f = ImageFont_load_default lib).
Proof.
  unfold load_font. generalize (get_font_paths env family) as paths.
  induction paths as [| p paths IH]; cbn [load_font_from].
  - intros H. injection H as <-. right. split; [constructor | reflexivity].
  - destruct (ImageFont_truetype lib p size) as [g | e] eqn:Ep.
    + intros H. injection H as <-. left.
      exists [], p, paths. split; [reflexivity |]. split; [constructor | exact Ep].
    + intros H. assert (Hp : font_fails lib size p).
      { unfold font_fails. rewrite Ep. intros []. }
      destruct (IH H) as [(before & path & after & -> & Hb & Hok) | [Hall ->]].
      * left. exists (p :: before), path, after.
        split; [reflexivity |]. split; [constructor; assumption | exact Hok].
      * right. split; [constructor; assumption | reflexivity].
Qed.

Lemma load_font_result_origin_witness :
  (exists before path after,
      get_font_paths linux_env "Arial" = before ++ path :: after
      /\ Forall (font_fails only_bundled_arial 30) before
      /\ ImageFont_truetype only_bundled_arial path 30
         = Ok (Some ("/opt/nodes/fonts/Arial.ttf", 30)))
  \/ (Forall (font_fails only_bundled_arial 30) (get_font_paths linux_env "Arial")
      /\ Some ("/opt/nodes/fonts/Arial.ttf", 30)
         = ImageFont_load_default only_bundled_arial).
Proof.
  apply (load_font_result_origin linux_env only_bundled_arial "Arial" 30).
  reflexivity.
Defined.

(** A family that is in neither font table has the two DejaVuSansMono
    paths of the user font directories as its only candidates on a Linux
    host, whatever the letter case of the platform name, and no candidate
    elsewhere: there [load_font] returns the built-in font without reading
    any file. *)
Theorem get_font_paths_unknown_family {Font : Type} (env : OsEnv) (lib : FontLib Font)
  (family : string) (size : Z) :
  CUSTOM_FONTS !! family = None -> SYSTEM_FONTS !! family = None ->
  (str_lower (platform_system env) = "linux" ->
   get_font_paths env family =
     [os_path_join env (os_path_join env (user_home env) ".fonts")
        "DejaVuSansMono.ttf";
      os_path_join env
        (os_path_join env
           (os_path_join env (os_path_join env (user_home env) ".local") "share")
           "fonts")
        "DejaVuSansMono.ttf"])
  /\ (str_lower (platform_system env) <> "linux" ->
      get_font_paths env family = []
      /\ load_font env lib family size = Ok (ImageFont_load_default lib)).
Proof.
  intros Hc Hs. unfold load_font, get_font_paths. rewrite Hc, Hs. cbv zeta.
  split.
  - intros ->. reflexivity.
  - intros Hne. apply String.eqb_neq in Hne. rewrite Hne. split; reflexivity.
Qed.

Lemma get_font_paths_unknown_family_witness :
  get_font_paths (mkOsEnv "/opt/nodes" "LINUX" "/root" posixpath_join) "Papyrus"
    = ["/root/.fonts/DejaVuSansMono.ttf";
       "/root/.local/share/fonts/DejaVuSansMono.ttf"]
  /\ load_font darwin_env only_bundled_arial "Papyrus" 12 = Ok None.
Proof.
  destruct (get_font_paths_unknown_family
              (mkOsEnv "/opt/nodes" "LINUX" "/root" posixpath_join)
              only_bundled_arial "Papyrus" 12) as [Hlinux _]; try reflexivity.
  destruct (get_font_paths_unknown_family darwin_env only_bundled_arial
              "Papyrus" 12) as [_ Hother]; try reflexivity.
  split.
  - apply Hlinux. reflexivity.
  - apply Hother. discriminate.
Defined.

(** ** Composition *)

Lemma mapM_app {A B : Type} (f : A -> result B) (l1 l2 : list A) (r1 r2 : list B) :
  mapM f l1 = Ok r1 -> mapM f l2 = Ok r2 -> mapM f (l1 ++ l2) = Ok (r1 ++ r2).
Proof.
  revert r1. induction l1 as [| a l1 IH]; intros r1 H1 H2.
  - injection H1 as <-. exact H2.
  - cbn [mapM app] in H1 |- *.
    destruct (f a) as [b |]; cbn [bind] in H1 |- *; [| discriminate].
    destruct (mapM f l1) as [bs |] eqn:E; cbn [bind] in H1; [| discriminate].
    injection H1 as <-. rewrite (IH bs eq_refl H2). reflexivity.
Qed.

(** Labelling is done image by image: labelling two batches of one shape
    put end to end gives the two labelled batches put end to end. *)
Theorem add_text_label_of_concatenation {Font : Type} (env : OsEnv)
  (fl : FontLib Font) (d : DrawLib Font) (st : LabelStyle)
  (h w c : Z) (images_a images_b : list (Image Q)) (out_a out_b : Tensor Q) :
  add_text_label env fl d (Arg4 (mkTensor h w c images_a)) st = Ok out_a ->
  add_text_label env fl d (Arg4 (mkTensor h w c images_b)) st = Ok out_b ->
  add_text_label env fl d (Arg4 (mkTensor h w c (images_a ++ images_b))) st
  = Ok (mkTensor h w 3 (items out_a ++ items out_b)).
Proof.
  intros Ha Hb.
  apply add_text_label_Ok_inv in Ha as (ra & Hra & Hnea & ->).
  apply add_text_label_Ok_inv in Hb as (rb & Hrb & Hneb & ->).
  cbn [as_batch dimH dimW items] in *.
  rewrite add_text_label_unfold.
  unfold tensor_rows in *. cbn [dimH dimW dimC items] in *.
  rewrite map_app, (mapM_app _ _ _ _ _ Hra Hrb). cbn [bind].
  rewrite (torch_stack_same_shape (ra ++ rb) h w 3).
  - rewrite map_app. reflexivity.
  - destruct ra; [contradiction | discriminate].
  - destruct (mapM_rows_lookup _ _ _ _ Hra) as (_ & _ & Hina).
    destruct (mapM_rows_lookup _ _ _ _ Hrb) as (_ & _ & Hinb).
    apply Forall_forall. intros r Hr. apply list_elem_of_In in Hr.
    apply in_app_or in Hr as [Hr | Hr].
    + destruct (Hina r Hr) as (x & Hx).
      apply render_one_result in Hx as (Hh & Hw & Hc & _). auto.
    + destruct (Hinb r Hr) as (x & Hx).
      apply render_one_result in Hx as (Hh & Hw & Hc & _). auto.
Qed.

Lemma add_text_label_of_concatenation_witness :
  exists out_a out_b,
    add_text_label linux_env only_bundled_arial block_painters
      (Arg4 (mkTensor 40 60 3 [flat (1 # 4)])) sample_style = Ok out_a
    /\ add_text_label linux_env only_bundled_arial block_painters
         (Arg4 (mkTensor 40 60 3 [flat (3 # 2); flat (-1)])) sample_style = Ok out_b
    /\ add_text_label linux_env only_bundled_arial block_painters
         (Arg4 label_batch) sample_style
       = Ok (mkTensor 40 60 3 (items out_a ++ items out_b)).
Proof.
  eexists. eexists. split; [reflexivity |]. split; [reflexivity |].
  apply (add_text_label_of_concatenation linux_env only_bundled_arial
           block_painters sample_style 40 60 3
           [flat (1 # 4)] [flat (3 # 2); flat (-1)]); reflexivity.
Defined.

Lemma create_grid_same_shape_Ok {A : Type}
  (bilinear : Z -> Z -> Z -> Z -> Image A -> Image A) (zero : A)
  (columns padding : Z)
  (image_1 image_2 image_3 image_4 image_5 image_6 : option (Tensor A))
  (first : Tensor A) (rest : list (Tensor A)) :
  omap id [image_1; image_2; image_3; image_4; image_5; image_6] = first :: rest ->
  shape_ok first ->
  Forall (fun t => same_shape first t = true) rest ->
  0 <= padding ->
  is_Ok (create_grid bilinear zero columns padding
           image_1 image_2 image_3 image_4 image_5 image_6).
Proof.
  intros Hall Hok Hsame Hp.
  pose proof (normalize_batches_same_shape bilinear first rest Hsame) as Hnorm.
  set (final := mkTensor (dimH first) (dimW first) (dimC first)
                  (concat (map items (first :: rest)))) in *.
  destruct (Z.eq_dec (dimB final) 0) as [E0 | N0].
  - unfold create_grid. rewrite Hall. cbv zeta. rewrite Hnorm. cbn [bind].
    rewrite E0. cbn [Z.eqb]. destruct Hok as (h1 & h2 & h3).
    rewrite torch_zeros_one by assumption. exact I.
  - assert (Hb : 1 <= dimB final) by (unfold dimB in *; lia).
    destruct (create_grid_run bilinear zero columns padding _ _ _ _ _ _ _ _ _
                Hall Hok Hnorm Hb Hp)
      as (cols & rows & canvas & _ & _ & _ & _ & _ & _ & Hrun & _).
    rewrite Hrun. exact I.
Qed.

(** The two nodes compose: batches labelled by [add_text_label] whose
    inputs had one height and width can be put in one grid with any
    non-negative padding, even when the inputs differed in channel count,
    because every labelled batch is RGB. *)
Theorem create_grid_of_labelled_batches {Font : Type} (env : OsEnv)
  (fl : FontLib Font) (d : DrawLib Font)
  (bilinear : Z -> Z -> Z -> Z -> Image Q -> Image Q)
  (image_a image_b : Tensor Q) (st_a st_b : LabelStyle) (out_a out_b : Tensor Q)
  (columns padding : Z) :
  add_text_label env fl d (Arg4 image_a) st_a = Ok out_a ->
  add_text_label env fl d (Arg4 image_b) st_b = Ok out_b ->
  dimH image_a = dimH image_b -> dimW image_a = dimW image_b ->
  0 <= dimH image_a -> 0 <= dimW image_a ->
  0 <= padding ->
  same_shape out_a out_b = true
  /\ is_Ok (create_grid bilinear 0%Q columns padding
              (Some out_a) (Some out_b) None None None None).
Proof.
  intros Ha Hb Hh Hw Hh0 Hw0 Hp.
  apply add_text_label_Ok_inv in Ha as (ra & _ & _ & ->).
  apply add_text_label_Ok_inv in Hb as (rb & _ & _ & ->).
  cbn [as_batch] in *.
  assert (Hsame : same_shape (mkTensor (dimH image_a) (dimW image_a) 3 (map t3data ra))
                    (mkTensor (dimH image_b) (dimW image_b) 3 (map t3data rb)) = true).
  { unfold same_shape. cbn [dimH dimW dimC]. rewrite Hh, Hw, !Z.eqb_refl. reflexivity. }
  split; [exact Hsame |].
  eapply create_grid_same_shape_Ok.
  - reflexivity.
  - unfold shape_ok. cbn [dimH dimW dimC]. lia.
  - constructor; [exact Hsame | constructor].
  - exact Hp.
Qed.

Lemma create_grid_of_labelled_batches_witness :
  exists out_a out_b,
    add_text_label linux_env only_bundled_arial block_painters
      (Arg4 (mkTensor 40 60 3 [flat (1 # 4)])) sample_style = Ok out_a
    /\ add_text_label linux_env only_bundled_arial block_painters
         (Arg4 (mkTensor 40 60 4 [flat 1; flat 0])) sample_style = Ok out_b
    /\ same_shape out_a out_b = true
    /\ is_Ok (create_grid nearest 0%Q 2 2
                (Some out_a) (Some out_b) None None None None).
Proof.
  eexists. eexists. split; [reflexivity |]. split; [reflexivity |].
  apply (create_grid_of_labelled_batches linux_env only_bundled_arial
           block_painters nearest
           (mkTensor 40 60 3 [flat (1 # 4)]) (mkTensor 40 60 4 [flat 1; flat 0])
           sample_style sample_style); try reflexivity; simpl; lia.
Defined.

(** ** The mosaic, pixel by pixel *)

Lemma in_cell_div_mod (cols h w padding idx y x : Z) :
  0 < cols -> 0 <= h -> 0 <= w -> 0 <= padding -> 0 <= idx ->
  0 < h + padding -> 0 < w + padding ->
  in_cell cols h w padding idx y x ->
  y / (h + padding) = idx / cols /\ y mod (h + padding) < h
  /\ x / (w + padding) = idx mod cols /\ x mod (w + padding) < w.
Proof.
  intros Hcols Hh Hw Hp Hidx Hsy Hsx [Hy Hx]. unfold cell_x, cell_y in *.
  assert (0 <= idx / cols) by (apply Z.div_pos; lia).
  pose proof (Z.mod_pos_bound idx cols Hcols).
  assert (Ey : y / (h + padding) = idx / cols).
  { symmetry. apply (Z.div_unique y (h + padding) (idx / cols)
                       (y - idx / cols * (h + padding))); lia. }
  assert (Ex : x / (w + padding) = idx mod cols).
  { symmetry. apply (Z.div_unique x (w + padding) (idx mod cols)
                       (x - idx mod cols * (w + padding))); lia. }
  pose proof (Z.div_mod y (h + padding) ltac:(lia)) as Hdy.
  pose proof (Z.div_mod x (w + padding) ltac:(lia)) as Hdx.
  rewrite Ey in Hdy. rewrite Ex in Hdx.
  repeat split; try assumption; lia.
Qed.

(** The returned canvas in closed form. A pixel (y, x) inside the canvas
    lies in the grid line [y div (h+padding)] and the grid column
    [x div (w+padding)]; when its offsets [y mod (h+padding)] and
    [x mod (w+padding)] fall inside an image it shows that pixel of the
    image with index line*cols + column, if there is such an image, and it is
    black otherwise. *)
Theorem create_grid_pixels {A : Type}
  (bilinear : Z -> Z -> Z -> Z -> Image A -> Image A) (zero : A)
  (columns padding : Z)
  (image_1 image_2 image_3 image_4 image_5 image_6 : option (Tensor A))
  (first : Tensor A) (rest : list (Tensor A)) (final : Tensor A) :
  omap id [image_1; image_2; image_3; image_4; image_5; image_6] = first :: rest ->
  shape_ok first ->
  normalize_batches bilinear (dimH first) (dimW first) (first :: rest) = Ok final ->
  1 <= dimB final ->
  0 <= padding ->
  exists cols rows (canvas : Image A),
    grid_dimensions columns (dimB final) = Ok (cols, rows)
    /\ create_grid bilinear zero columns padding
         image_1 image_2 image_3 image_4 image_5 image_6
       = Ok (mkTensor (grid_height rows (dimH first) padding)
               (grid_width cols (dimW first) padding) (dimC first) [canvas])
    /\ forall y x ch,
         0 <= y < grid_height rows (dimH first) padding ->
         0 <= x < grid_width cols (dimW first) padding ->
         0 <= ch < dimC first ->
         let sy := dimH first + padding in
         let sx := dimW first + padding in
         canvas y x ch =
           if (y mod sy <? dimH first) && (x mod sx <? dimW first)
           then match items final !! Z.to_nat (y / sy * cols + x / sx) with
                | Some img => img (y mod sy) (x mod sx) ch
                | None => zero
                end
           else zero.
Proof.
  intros Hall Hok Hnorm Hb Hp.
  destruct (create_grid_run bilinear zero columns padding _ _ _ _ _ _ _ _ _
              Hall Hok Hnorm Hb Hp)
    as (cols & rows & canvas & Hdim & Hcols & Hrows & _ & _ & Hceil
        & Hrun & Hin & Hout).
  destruct Hok as (Hh & Hw & Hc).
  exists cols, rows, canvas. split; [exact Hdim |]. split; [exact Hrun |].
  intros y x ch Hy Hx Hch. cbv zeta.
  set (h := dimH first) in *. set (w := dimW first) in *.
  unfold grid_height in Hy. unfold grid_width in Hx.
  assert (Hsy : 0 < h + padding) by nia.
  assert (Hsx : 0 < w + padding) by nia.
  pose proof (Z.div_mod y (h + padding) ltac:(lia)) as Hdy.
  pose proof (Z.mod_pos_bound y (h + padding) Hsy) as Hmy.
  pose proof (Z.div_mod x (w + padding) ltac:(lia)) as Hdx.
  pose proof (Z.mod_pos_bound x (w + padding) Hsx) as Hmx.
  assert (Hr0 : 0 <= y / (h + padding)) by (apply Z.div_pos; lia).
  assert (Hc0 : 0 <= x / (w + padding)) by (apply Z.div_pos; lia).
  assert (Hc1 : x / (w + padding) < cols)
    by (apply Z.div_lt_upper_bound; nia).
  set (line := y / (h + padding)) in *. set (col := x / (w + padding)) in *.
  set (idx := line * cols + col).
  assert (Hidx0 : 0 <= idx) by (unfold idx; nia).
  assert (Eline : idx / cols = line).
  { symmetry. apply (Z.div_unique idx cols line col); unfold idx; lia. }
  assert (Ecol : idx mod cols = col).
  { symmetry. apply (Z.mod_unique idx cols line col); unfold idx; lia. }
  destruct ((y mod (h + padding) <? h) && (x mod (w + padding) <? w)) eqn:Einside.
  - apply andb_prop in Einside as [Ey Ex]. apply Z.ltb_lt in Ey, Ex.
    assert (Hcell : in_cell cols h w padding idx y x).
    { unfold in_cell, cell_x, cell_y. rewrite Eline, Ecol. lia. }
    destruct (items final !! Z.to_nat idx) as [img |] eqn:Elook.
    + rewrite (Hin (Z.to_nat idx) img y x ch Elook).
      * rewrite Z2Nat.id by lia. unfold cell_x, cell_y. rewrite Eline, Ecol.
        f_equal; lia.
      * rewrite Z2Nat.id by lia. exact Hcell.
      * exact Hch.
    + apply lookup_ge_None in Elook.
      apply Hout. intros j Hj Hcj.
      clearbody idx. unfold Image in *.
      eapply (cells_disjoint cols h w padding) with (i := idx) (j := Z.of_nat j);
        try eassumption; lia.
  - apply Hout. intros j Hj Hcj.
    destruct (in_cell_div_mod cols h w padding (Z.of_nat j) y x
                Hcols Hh Hw Hp ltac:(lia) Hsy Hsx Hcj) as (_ & Hmy' & _ & Hmx').
    apply andb_false_iff in Einside as [E | E]; apply Z.ltb_ge in E; lia.
Qed.

Lemma create_grid_pixels_witness :
  exists (canvas : Image Q),
    create_grid nearest 0%Q 2 4
      (Some batch_128) None (Some batch_64) None None None
    = Ok (mkTensor 260 260 3 [canvas])
    /\ canvas 140 10 0 = 1%Q
    /\ canvas 140 129 0 = 0%Q
    /\ canvas 140 140 0 = 0%Q.
Proof.
  destruct (create_grid_pixels nearest 0%Q 2 4
              (Some batch_128) None (Some batch_64) None None None
              batch_128 [batch_64] batch_128_then_64)
    as (cols & rows & canvas & Hdim & Hrun & Hpix).
  - reflexivity.
  - unfold shape_ok. simpl. lia.
  - reflexivity.
  - unfold dimB. simpl. lia.
  - lia.
  - injection Hdim as <- <-.
    exists canvas. split; [exact Hrun |].
    split; [| split].
    + exact (Hpix 140 10 0 ltac:(vm_compute; intuition congruence)
               ltac:(vm_compute; intuition congruence) ltac:(simpl; lia)).
    + exact (Hpix 140 129 0 ltac:(vm_compute; intuition congruence)
               ltac:(vm_compute; intuition congruence) ltac:(simpl; lia)).
    + exact (Hpix 140 140 0 ltac:(vm_compute; intuition congruence)
               ltac:(vm_compute; intuition congruence) ltac:(simpl; lia)).
Defined.

(** ** When the two nodes raise *)

(** With a non-negative padding, [create_grid] raises exactly when the
    resize-and-concatenate stage raises: the layout arithmetic, the canvas
    allocation and the placement loop never fail by themselves, whatever the
    number of columns asked for. *)
Theorem create_grid_raises_only_in_normalization {A : Type}
  (bilinear : Z -> Z -> Z -> Z -> Image A -> Image A) (zero : A)
  (columns padding : Z)
  (image_1 image_2 image_3 image_4 image_5 image_6 : option (Tensor A))
  (first : Tensor A) (rest : list (Tensor A)) :
  omap id [image_1; image_2; image_3; image_4; image_5; image_6] = first :: rest ->
  shape_ok first ->
  0 <= padding ->
  (is_Ok (create_grid bilinear zero columns padding
            image_1 image_2 image_3 image_4 image_5 image_6)
   <-> is_Ok (normalize_batches bilinear (dimH first) (dimW first) (first :: rest))).
Proof.
  intros Hall Hok Hp.
  destruct (normalize_batches bilinear (dimH first) (dimW first) (first :: rest))
    as [final | e] eqn:Hnorm.
  - split; [intros _; exact I | intros _].
    destruct (Z.eq_dec (dimB final) 0) as [E0 | N0].
    + unfold create_grid. rewrite Hall. cbv zeta. rewrite Hnorm. cbn [bind].
      rewrite E0. cbn [Z.eqb]. destruct Hok as (h1 & h2 & h3).
      rewrite torch_zeros_one by assumption. exact I.
    + assert (Hb : 1 <= dimB final) by (unfold dimB in *; lia).
      destruct (create_grid_run bilinear zero columns padding _ _ _ _ _ _ _ _ _
                  Hall Hok Hnorm Hb Hp)
        as (cols & rows & canvas & _ & _ & _ & _ & _ & _ & Hrun & _).
      rewrite Hrun. exact I.
  - unfold create_grid. rewrite Hall. cbv zeta. rewrite Hnorm. cbn [bind is_Ok].
    tauto.
Qed.

Lemma create_grid_raises_only_in_normalization_witness :
  is_Ok (create_grid nearest 0%Q (-4) 0
           (Some batch_64) (Some batch_128) None None None None)
  <-> is_Ok (normalize_batches nearest 64 64 [batch_64; batch_128]).
Proof.
  apply (create_grid_raises_only_in_normalization nearest 0%Q (-4) 0
           (Some batch_64) (Some batch_128) None None None None
           batch_64 [batch_128]).
  - reflexivity.
  - unfold shape_ok. simpl. lia.
  - lia.
Defined.

(** [add_text_label] raises RuntimeError on every batch without images,
    whatever the style, the fonts and the painters: the loop body never runs,
    and [torch.stack] refuses the empty list. *)
Theorem add_text_label_empty_batch {Font : Type} (env : OsEnv)
  (fl : FontLib Font) (d : DrawLib Font) (image : ImageArg) (st : LabelStyle) :
  items (as_batch image) = [] ->
  add_text_label env fl d image st = Raise RuntimeError.
Proof.
  intros Hempty. rewrite add_text_label_unfold. fold (as_batch image).
  unfold tensor_rows. rewrite Hempty. reflexivity.
Qed.

Lemma add_text_label_empty_batch_witness :
  add_text_label darwin_env no_font_files block_painters (Arg4 empty_64)
    sample_style = Raise RuntimeError.
Proof.
  apply (add_text_label_empty_batch darwin_env no_font_files block_painters
           (Arg4 empty_64) sample_style).
  reflexivity.
Defined.
